(** * hh-go-parser: the crawl / dedup / persist use case and its storage adapters

    A shallow embedding of
      - internal/domain/entities/resume.go        (Resume, IsValid)
      - internal/domain/repositories/resume_repository.go (the two interfaces)
      - internal/domain/usecases/resume_usecase.go (ParseResumesByCriteria)
      - internal/adapters/storage/storage.go, sql_storage.go and the CSV
        adapter of the same package (CSVStorage)
    together with the properties of the specification that concern them.

    Conventions.  Go's [int] is a 64-bit two's complement integer: it is a [Z]
    and every [++] goes through [int_add], which wraps.  Go strings are byte
    strings: [string].  [map[string]bool] is a [gmap string bool]; reading a
    missing key gives [false].  A method that mutates its receiver or performs
    I/O takes the state in and hands the new state back.  The logger is an
    output-only collaborator and is left out. *)

From Stdlib Require Import ZArith Lia Ascii DecimalString.
From stdpp Require Import gmap strings list fin_maps.

Open Scope Z_scope.

(* ===================================================================== *)
(** ** Go's [int] *)
(* ===================================================================== *)

Module GoInt.

Definition int_min : Z := - 2 ^ 63.
Definition int_max : Z := 2 ^ 63 - 1.

(** Two's complement reduction of an unbounded integer to 64 bits. *)
Definition int_wrap (z : Z) : Z := (z + 2 ^ 63) mod 2 ^ 64 - 2 ^ 63.

Definition int_add (a b : Z) : Z := int_wrap (a + b).

(** [x++] *)
Definition int_incr (x : Z) : Z := int_add x 1.

(** [len(s)] as an [int]. *)
Definition len {A} (l : list A) : Z := Z.of_nat (length l).

Definition in_range (z : Z) : Prop := int_min <= z <= int_max.

End GoInt.
Import GoInt.

(* ===================================================================== *)
(** ** Errors and results *)
(* ===================================================================== *)

(** A Go [error] value.  [fmt.Errorf format args] is kept as a constructor
    holding its format string and arguments, so that a [%w]-wrapped cause can
    be read back without modelling the formatting of the message. *)
Inductive error : Type :=
| ErrNotExist                         (* os: file does not exist            *)
| ErrPermission                       (* os: any other failure of Open/Create *)
| ErrEOF                              (* io.EOF                              *)
| ErrOther (msg : string)             (* an error of a collaborator          *)
| Errorf (format : string) (args : list fmtarg)
with fmtarg : Type :=
| ArgInt (z : Z)
| ArgStr (s : string)
| ArgErr (e : error).

(** [os.IsNotExist(err)] *)
Definition IsNotExist (e : error) : bool :=
  match e with ErrNotExist => true | _ => false end.

(** The pair [(value, error)] returned by a fallible Go function that
    returns either a value or a non-nil error. *)
Inductive result (A : Type) : Type :=
| Ok (a : A)
| Err (e : error).
Arguments Ok {A} a.
Arguments Err {A} e.

(* ===================================================================== *)
(** ** entities/resume.go *)
(* ===================================================================== *)

Module entities.

(** [time.Time], as far as the program looks at it: an instant and the
    offset of its location.  Only the formatting functions read it. *)
Record Time := { unix_nano : Z; zone_offset : Z }.

Record Job := {
  Company : string; Position : string; StartDate : string;
  EndDate : string; Description : string; Industry : string }.

Record Edu := {
  Institution : string; Faculty : string; Specialty : string;
  Year : string; Level : string }.

Record Social := { SocialType : string; SocialURL : string }.

Record Contact := {
  Phone : string; Email : string; Telegram : string; Skype : string;
  Social_ : list Social }.

Record Salary := { Amount : Z; Currency : string; Gross : bool }.

Record Resume := {
  ID : string;
  Name : string;
  Skills : list string;
  Experience : list Job;
  Education : list Edu;
  LastUpdate : Time;
  Contact_ : Contact;
  URL : string;
  Title : string;
  Salary_ : option Salary;
  Location : string;
  Age : Z;
  Gender : string }.

(** [resume.Skills = skills] *)
Definition set_Skills (r : Resume) (skills : list string) : Resume :=
  {| ID := ID r; Name := Name r; Skills := skills;
     Experience := Experience r; Education := Education r;
     LastUpdate := LastUpdate r; Contact_ := Contact_ r; URL := URL r;
     Title := Title r; Salary_ := Salary_ r; Location := Location r;
     Age := Age r; Gender := Gender r |}.

(** [s != ""] *)
Definition nonempty (s : string) : bool := bool_decide (s ≠ ""%string).

(** [func (r *Resume) IsValid() bool] *)
Definition IsValid (r : Resume) : bool :=
  nonempty (ID r) && (nonempty (Name r) || nonempty (Title r)).

End entities.
Import entities.

(* ===================================================================== *)
(** ** usecases/resume_usecase.go: the pure helpers *)
(* ===================================================================== *)

(** [uc.processed[resumeID]]: a missing key reads as [false]. *)
Definition isAlreadyProcessed (processed : gmap string bool) (resumeID : string) : bool :=
  default false (processed !! resumeID).

(** [uc.processed[resumeID] = true] *)
Definition markAsProcessed (processed : gmap string bool) (resumeID : string)
  : gmap string bool :=
  <[resumeID := true]> processed.

(** [func (uc *ResumeUseCase) validateResume(resume *entities.Resume) bool] *)
Definition validateResume (resume : Resume) : bool :=
  if negb (IsValid resume) then false
  else if (len (Skills resume) =? 0) && (len (Experience resume) =? 0) then false
  else true.

(** The [for _, skill := range skills] loop of [normalizeSkills], with its
    two locals [seen] and [normalized]. *)
Fixpoint normalizeSkills_loop (skills : list string) (seen : gmap string bool)
    (normalized : list string) : list string :=
  match skills with
  | [] => normalized
  | skill :: rest =>
      if nonempty skill && negb (default false (seen !! skill))
      then normalizeSkills_loop rest (<[skill := true]> seen) (normalized ++ [skill])
      else normalizeSkills_loop rest seen normalized
  end.

(** [func (uc *ResumeUseCase) normalizeSkills(skills []string) []string] *)
Definition normalizeSkills (skills : list string) : list string :=
  normalizeSkills_loop skills ∅ [].

(** [enrichResumeData]: normalises the skills of the record it is handed and
    always returns a nil error. *)
Definition enrichResumeData (resume : Resume) : Resume * option error :=
  (set_Skills resume (normalizeSkills (Skills resume)), None).

(** What the specification says normalisation is: drop the empty entries,
    then keep of every entry its first occurrence only. *)
Fixpoint first_occurrences (l : list string) : list string :=
  match l with
  | [] => []
  | x :: l' => x :: filter (λ y, y ≠ x) (first_occurrences l')
  end.

Definition spec_normalize (skills : list string) : list string :=
  first_occurrences (filter (λ s, s ≠ ""%string) skills).

(* ===================================================================== *)
(** ** repositories/resume_repository.go *)
(* ===================================================================== *)

Module repositories.

Record SearchCriteria := {
  Keywords : list string;
  City : string;
  Experience : string;
  UpdateDays : Z;
  Page : Z;
  PerPage : Z }.

(** [criteria.Page = page] *)
Definition set_Page (c : SearchCriteria) (page : Z) : SearchCriteria :=
  {| Keywords := Keywords c; City := City c; Experience := Experience c;
     UpdateDays := UpdateDays c; Page := page; PerPage := PerPage c |}.

(** [type ResumeRepository interface]: an implementation is a state type
    [R] with the two methods; a call may change the state (rate limiter,
    network). *)
Class ResumeRepository (R : Type) := {
  SearchResumes : R → SearchCriteria → result (list Resume) * R;
  GetResumeByID : R → string → result Resume * R }.

(** [type StorageRepository interface] *)
Class StorageRepository (T : Type) := {
  SaveResumes : T → list Resume → option error * T;
  GetSavedResumeIDs : T → result (list string) * T }.

End repositories.
Import repositories.
Import entities.

(* ===================================================================== *)
(** ** usecases/resume_usecase.go: ParseResumesByCriteria *)
(* ===================================================================== *)

Module usecases.

Record ParseResult := {
  TotalFound : Z;
  ProcessedCount : Z;
  SavedCount : Z;
  SkippedCount : Z;
  Errors : list error }.

(** [type ResumeUseCase struct].  [cacheRepo] is not read by
    [ParseResumesByCriteria] and [logger] only receives output. *)
Record ResumeUseCase (R T : Type) := {
  resumeRepo : R;
  storageRepo : T;
  processed : gmap string bool }.
Arguments resumeRepo {R T} _.
Arguments storageRepo {R T} _.
Arguments processed {R T} _.

(** [NewResumeUseCase]: [processed: make(map[string]bool)] *)
Definition NewResumeUseCase {R T} (resumeRepo : R) (storageRepo : T)
  : ResumeUseCase R T :=
  {| resumeRepo := resumeRepo; storageRepo := storageRepo; processed := ∅ |}.

(** The variables the body of the pagination loop reads and writes:
    [uc.processed], [result] and [allResumes]. *)
Record LoopState := {
  ls_processed : gmap string bool;
  ls_result : ParseResult;
  ls_allResumes : list Resume }.

Definition count_processed (r : ParseResult) : ParseResult :=
  {| TotalFound := TotalFound r; ProcessedCount := int_incr (ProcessedCount r);
     SavedCount := SavedCount r; SkippedCount := SkippedCount r;
     Errors := Errors r |}.

Definition count_skipped (r : ParseResult) : ParseResult :=
  {| TotalFound := TotalFound r; ProcessedCount := ProcessedCount r;
     SavedCount := SavedCount r; SkippedCount := int_incr (SkippedCount r);
     Errors := Errors r |}.

Definition count_saved (r : ParseResult) : ParseResult :=
  {| TotalFound := TotalFound r; ProcessedCount := ProcessedCount r;
     SavedCount := int_incr (SavedCount r); SkippedCount := SkippedCount r;
     Errors := Errors r |}.

Definition add_error (r : ParseResult) (e : error) : ParseResult :=
  {| TotalFound := TotalFound r; ProcessedCount := ProcessedCount r;
     SavedCount := SavedCount r; SkippedCount := SkippedCount r;
     Errors := Errors r ++ [e] |}.

(** [result.TotalFound = result.ProcessedCount] *)
Definition set_TotalFound (r : ParseResult) : ParseResult :=
  {| TotalFound := ProcessedCount r; ProcessedCount := ProcessedCount r;
     SavedCount := SavedCount r; SkippedCount := SkippedCount r;
     Errors := Errors r |}.

(** One iteration of [for _, resume := range resumes] (lines 80-106). *)
Definition processResume (st : LoopState) (resume : Resume) : LoopState :=
  let result := count_processed (ls_result st) in
  if isAlreadyProcessed (ls_processed st) (ID resume) then
    {| ls_processed := ls_processed st; ls_result := count_skipped result;
       ls_allResumes := ls_allResumes st |}
  else if negb (validateResume resume) then
    {| ls_processed := ls_processed st; ls_result := count_skipped result;
       ls_allResumes := ls_allResumes st |}
  else
    let '(resume, _) := enrichResumeData resume in
    {| ls_processed := markAsProcessed (ls_processed st) (ID resume);
       ls_result := count_saved result;
       ls_allResumes := ls_allResumes st ++ [resume] |}.

(** The whole inner loop over one fetched page. *)
Definition processPage (st : LoopState) (resumes : list Resume) : LoopState :=
  foldl processResume st resumes.

(** The outer [for { ... }] (lines 65-115).  The loop has no bound of its
    own, so the model takes [fuel]: [None] means the fuel ran out before
    the loop reached one of its two [break]s. *)
Fixpoint paginate `{HR : ResumeRepository R} (fuel : nat) (repo : R)
    (criteria : SearchCriteria) (page : Z) (st : LoopState)
  : option (R * LoopState) :=
  match fuel with
  | O => None
  | S fuel =>
      let criteria := set_Page criteria page in
      match SearchResumes repo criteria with
      | (Err err, repo) =>
          Some (repo,
                {| ls_processed := ls_processed st;
                   ls_result := add_error (ls_result st)
                     (Errorf "ошибка поиска на странице %d: %w" [ArgInt page; ArgErr err]);
                   ls_allResumes := ls_allResumes st |})
      | (Ok resumes, repo) =>
          if len resumes =? 0 then Some (repo, st)
          else paginate fuel repo criteria (int_incr page) (processPage st resumes)
      end
  end.

(** [loadProcessedResumes] *)
Definition loadProcessedResumes `{HT : StorageRepository T} {R}
    (uc : ResumeUseCase R T) : option error * ResumeUseCase R T :=
  match GetSavedResumeIDs (storageRepo uc) with
  | (Err err, storage) =>
      (Some err,
       {| resumeRepo := resumeRepo uc; storageRepo := storage;
          processed := processed uc |})
  | (Ok savedIDs, storage) =>
      (None,
       {| resumeRepo := resumeRepo uc; storageRepo := storage;
          processed := foldl markAsProcessed (processed uc) savedIDs |})
  end.

(** [result := &ParseResult{...}]: [TotalFound] is not in the literal and
    starts at zero. *)
Definition newParseResult : ParseResult :=
  {| TotalFound := 0; ProcessedCount := 0; SavedCount := 0;
     SkippedCount := 0; Errors := [] |}.

(** The loop variables on entry: the [processed] map as loading left it,
    the fresh [result], and [var allResumes []entities.Resume]. *)
Definition enterLoop (processed : gmap string bool) : LoopState :=
  {| ls_processed := processed; ls_result := newParseResult;
     ls_allResumes := [] |}.

(** [ParseResumesByCriteria]: the pair it returns and the use case as the
    call leaves it. *)
Definition ParseResumesByCriteria `{HR : ResumeRepository R} `{HT : StorageRepository T}
    (fuel : nat) (uc : ResumeUseCase R T) (criteria : SearchCriteria)
  : option (ParseResult * option error * ResumeUseCase R T) :=
  (* a failure to load is logged and the run goes on *)
  let '(_, uc) := loadProcessedResumes uc in
  match paginate fuel (resumeRepo uc) criteria 0 (enterLoop (processed uc)) with
  | None => None
  | Some (repo, st) =>
      let result := ls_result st in
      let allResumes := ls_allResumes st in
      if 0 <? len allResumes then
        match SaveResumes (storageRepo uc) allResumes with
        | (Some err, storage) =>
            Some (result,
                  Some (Errorf "ошибка сохранения резюме: %w" [ArgErr err]),
                  {| resumeRepo := repo; storageRepo := storage;
                     processed := ls_processed st |})
        | (None, storage) =>
            Some (set_TotalFound result, None,
                  {| resumeRepo := repo; storageRepo := storage;
                     processed := ls_processed st |})
        end
      else
        Some (set_TotalFound result, None,
              {| resumeRepo := repo; storageRepo := storageRepo uc;
                 processed := ls_processed st |})
  end.

End usecases.
Import usecases.

(* ===================================================================== *)
(** ** adapters/storage: the sink file and the three encoders *)
(* ===================================================================== *)

Module storage.

(** The file named by the adapter's [file] field, as package [os] shows
    it: it does not exist, it exists but cannot be opened or created, or it
    holds [data].  Once [os.Create] has succeeded the writes that follow are
    taken to succeed. *)
Inductive FileState (Bytes : Type) : Type :=
| Absent
| Denied
| Present (data : Bytes).
Arguments Absent {Bytes}.
Arguments Denied {Bytes}.
Arguments Present {Bytes} data.

(** [os.Open] *)
Definition os_Open {Bytes} (f : FileState Bytes) : result Bytes :=
  match f with
  | Absent => Err ErrNotExist
  | Denied => Err ErrPermission
  | Present data => Ok data
  end.

(** [os.Create]: [None] when the file was created or truncated. *)
Definition os_Create {Bytes} (f : FileState Bytes) : option error :=
  match f with
  | Denied => Some ErrPermission
  | _ => None
  end.

(** [joinStrings] *)
Definition joinStrings (items : list string) (sep : string) : string :=
  match items with
  | [] => ""
  | first :: rest => foldl (λ result item, result +:+ sep +:+ item) first rest
  end.

(** [fmt.Sprintf("%d", n)] *)
Definition Sprintf_d (n : Z) : string := NilZero.string_of_int (Z.to_int n).

(* ------------------------------------------------------------------- *)
(** *** storage.go: FileStorage (one JSON array, rewritten on each save) *)

Section FileStorage.
(** Package [encoding/json] is taken as a parameter: the bytes of a file,
    the empty file, the encoder and the decoder. *)
Variable Bytes : Type.
Variable empty_file : Bytes.
Variable json_encode : list Resume → result Bytes.
Variable json_decode : Bytes → result (list Resume).

(** [func (s *FileStorage) SaveResumes].  [Encode] marshals its argument
    before it writes: when it fails the created file stays empty. *)
Definition FileStorage_SaveResumes (file : FileState Bytes)
    (resumes : list Resume) : option error * FileState Bytes :=
  match os_Create file with
  | Some err => (Some err, file)
  | None =>
      match json_encode resumes with
      | Ok data => (None, Present data)
      | Err err => (Some err, Present empty_file)
      end
  end.

(** [func (s *FileStorage) GetSavedResumeIDs] *)
Definition FileStorage_GetSavedResumeIDs (file : FileState Bytes)
  : result (list string) * FileState Bytes :=
  match os_Open file with
  | Err err => if IsNotExist err then (Ok [], file) else (Err err, file)
  | Ok data =>
      match json_decode data with
      | Err err => (Err err, file)
      | Ok resumes => (Ok (ID <$> resumes), file)
      end
  end.

Definition FileStorage : StorageRepository (FileState Bytes) :=
  {| SaveResumes := FileStorage_SaveResumes;
     GetSavedResumeIDs := FileStorage_GetSavedResumeIDs |}.
End FileStorage.

(* ------------------------------------------------------------------- *)
(** *** CSVStorage (header row, then one row per resume) *)

Section CSVStorage.
(** Package [encoding/csv] is taken as a parameter: [csv_write] is what a
    [csv.Writer] leaves in the file after the given records, [csv_read]
    what a [csv.Reader] returns for the whole file (a failing record makes
    the read fail).  [Format] is [time.Time.Format]. *)
Variable Bytes : Type.
Variable csv_write : list (list string) → Bytes.
Variable csv_read : Bytes → result (list (list string)).
Variable Format : Time → string → string.

Definition formatSkills (skills : list string) : string :=
  joinStrings skills "; ".

Definition formatExperience (experience : list Job) : string :=
  joinStrings
    (foldl (λ parts job,
              parts ++ [Position job +:+ " at " +:+ Company job +:+ " ("
                        +:+ StartDate job +:+ " - " +:+ EndDate job +:+ ")"])
           [] experience)
    " | ".

Definition formatEducation (education : list Edu) : string :=
  joinStrings
    (foldl (λ parts edu,
              parts ++ [Institution edu +:+ ", " +:+ Specialty edu +:+ " ("
                        +:+ Year edu +:+ ")"])
           [] education)
    " | ".

Definition headers : list string :=
  ["ID"; "Name"; "Title"; "Skills"; "Experience";
   "Education"; "Last Update"; "Phone"; "Email";
   "URL"; "Location"; "Age"; "Gender"].

(** The [record] built for one resume. *)
Definition record (resume : Resume) : list string :=
  [ID resume; Name resume; Title resume;
   formatSkills (Skills resume);
   formatExperience (Experience resume);
   formatEducation (Education resume);
   Format (LastUpdate resume) "2006-01-02 15:04:05";
   Phone (Contact_ resume); Email (Contact_ resume);
   URL resume; Location resume;
   Sprintf_d (Age resume);
   Gender resume].

(** [func (s *CSVStorage) SaveResumes]: the header, then one record per
    resume, in the order of the batch. *)
Definition CSVStorage_SaveResumes (file : FileState Bytes)
    (resumes : list Resume) : option error * FileState Bytes :=
  match os_Create file with
  | Some err => (Some (Errorf "ошибка создания файла: %w" [ArgErr err]), file)
  | None =>
      (None,
       Present (csv_write
                  (foldl (λ written resume, written ++ [record resume])
                         [headers] resumes)))
  end.

(** [func (s *CSVStorage) GetSavedResumeIDs]: [reader.Read()] takes the
    first record (and fails with [io.EOF] when there is none),
    [reader.ReadAll()] the others. *)
Definition CSVStorage_GetSavedResumeIDs (file : FileState Bytes)
  : result (list string) * FileState Bytes :=
  match os_Open file with
  | Err err => if IsNotExist err then (Ok [], file) else (Err err, file)
  | Ok data =>
      match csv_read data with
      | Err err => (Err err, file)
      | Ok [] => (Err ErrEOF, file)
      | Ok (_ :: records) =>
          (Ok (foldl (λ ids record,
                        match record with
                        | id :: _ => ids ++ [id]
                        | [] => ids
                        end) [] records),
           file)
      end
  end.

Definition CSVStorage : StorageRepository (FileState Bytes) :=
  {| SaveResumes := CSVStorage_SaveResumes;
     GetSavedResumeIDs := CSVStorage_GetSavedResumeIDs |}.
End CSVStorage.

(* ------------------------------------------------------------------- *)
(** *** sql_storage.go: SQLStorage *)

(** [escape]: [strings.ReplaceAll(s, "'", "''")] *)
Fixpoint escape (s : string) : string :=
  match s with
  | EmptyString => EmptyString
  | String c rest =>
      if Ascii.eqb c "'"%char
      then String "'"%char (String "'"%char (escape rest))
      else String c (escape rest)
  end.

(** The text [writeSchema] writes. *)
Definition schema : string := "
-- Схема базы данных для резюме
CREATE TABLE IF NOT EXISTS resumes (
    id VARCHAR(255) PRIMARY KEY,
    name VARCHAR(500),
    title VARCHAR(500),
    skills TEXT,
    last_update TIMESTAMP,
    contact_phone VARCHAR(50),
    contact_email VARCHAR(255),
    url VARCHAR(500),
    location VARCHAR(255),
    age INT,
    gender VARCHAR(50),
    created_at TIMESTAMP DEFAULT CURRENT_TIMESTAMP
);

CREATE TABLE IF NOT EXISTS experience (
    id SERIAL PRIMARY KEY,
    resume_id VARCHAR(255) REFERENCES resumes(id),
    company VARCHAR(500),
    position VARCHAR(500),
    start_date VARCHAR(50),
    end_date VARCHAR(50),
    description TEXT,
    industry VARCHAR(255)
);

CREATE TABLE IF NOT EXISTS education (
    id SERIAL PRIMARY KEY,
    resume_id VARCHAR(255) REFERENCES resumes(id),
    institution VARCHAR(500),
    faculty VARCHAR(500),
    specialty VARCHAR(500),
    year VARCHAR(50),
    level VARCHAR(255)
);

-- Индексы для оптимизации поиска
CREATE INDEX IF NOT EXISTS idx_resumes_skills ON resumes USING gin (to_tsvector('russian', skills));
CREATE INDEX IF NOT EXISTS idx_resumes_location ON resumes(location);
CREATE INDEX IF NOT EXISTS idx_experience_company ON experience(company);
CREATE INDEX IF NOT EXISTS idx_education_institution ON education(institution);

".

Section SQLStorage.
Variable Format : Time → string → string.

(** [time.RFC3339] *)
Definition RFC3339 : string := "2006-01-02T15:04:05Z07:00".

Definition mainSQL (resume : Resume) : string :=
  "
INSERT INTO resumes (
    id, name, title, skills, last_update,
    contact_phone, contact_email, url,
    location, age, gender
) VALUES (
    '" +:+ escape (ID resume) +:+ "', '" +:+ escape (Name resume) +:+ "', '"
  +:+ escape (Title resume) +:+ "', '"
  +:+ escape (String.concat "; " (Skills resume)) +:+ "', '"
  +:+ Format (LastUpdate resume) RFC3339 +:+ "',
    '" +:+ escape (Phone (Contact_ resume)) +:+ "', '"
  +:+ escape (Email (Contact_ resume)) +:+ "', '"
  +:+ escape (URL resume) +:+ "',
    '" +:+ escape (Location resume) +:+ "', " +:+ Sprintf_d (Age resume) +:+ ", '"
  +:+ escape (Gender resume) +:+ "'
) ON CONFLICT (id) DO UPDATE SET
    last_update = EXCLUDED.last_update,
    skills = EXCLUDED.skills;
".

Definition expSQL (resume : Resume) (job : Job) : string :=
  "
INSERT INTO experience (
    resume_id, company, position,
    start_date, end_date, description, industry
) VALUES (
    '" +:+ escape (ID resume) +:+ "', '" +:+ escape (Company job) +:+ "', '"
  +:+ escape (Position job) +:+ "',
    '" +:+ escape (StartDate job) +:+ "', '" +:+ escape (EndDate job) +:+ "', '"
  +:+ escape (Description job) +:+ "', '" +:+ escape (Industry job) +:+ "'
);
".

Definition eduSQL (resume : Resume) (edu : Edu) : string :=
  "
INSERT INTO education (
    resume_id, institution, faculty,
    specialty, year, level
) VALUES (
    '" +:+ escape (ID resume) +:+ "', '" +:+ escape (Institution edu) +:+ "', '"
  +:+ escape (Faculty edu) +:+ "',
    '" +:+ escape (Specialty edu) +:+ "', '" +:+ escape (Year edu) +:+ "', '"
  +:+ escape (Level edu) +:+ "'
);
".

(** [writeSchema]: appends the schema to the file. *)
Definition writeSchema (written : string) : string := written +:+ schema.

(** [writeResume]: appends the statements of one resume to the file. *)
Definition writeResume (written : string) (resume : Resume) : string :=
  let written := written +:+ mainSQL resume in
  let written :=
    foldl (λ w job, w +:+ expSQL resume job) written (Experience resume) in
  foldl (λ w edu, w +:+ eduSQL resume edu) written (Education resume).

(** [func (s *SQLStorage) SaveResumes] *)
Definition SQLStorage_SaveResumes (file : FileState string)
    (resumes : list Resume) : option error * FileState string :=
  match os_Create file with
  | Some err => (Some (Errorf "ошибка создания файла: %w" [ArgErr err]), file)
  | None => (None, Present (foldl writeResume (writeSchema "") resumes))
  end.

(** [func (s *SQLStorage) GetSavedResumeIDs]: always the empty list. *)
Definition SQLStorage_GetSavedResumeIDs (file : FileState string)
  : result (list string) * FileState string :=
  (Ok [], file).

Definition SQLStorage : StorageRepository (FileState string) :=
  {| SaveResumes := SQLStorage_SaveResumes;
     GetSavedResumeIDs := SQLStorage_GetSavedResumeIDs |}.
End SQLStorage.

(** Number of places of [s] at which [pat] starts. *)
Fixpoint count_occurrences (pat s : string) : nat :=
  match s with
  | EmptyString => 0%nat
  | String _ rest =>
      ((if String.prefix pat s then 1 else 0) + count_occurrences pat rest)%nat
  end.

End storage.
Import storage.

(* ===================================================================== *)
(** ** Sources used to state the properties *)
(* ===================================================================== *)

(** A source that answers by page number alone and keeps the list of the page
    numbers it was asked for, in the order of the calls. *)
Record PagedSource := {
  pages : Z → result (list Resume);
  requested : list Z }.

Definition PagedSource_SearchResumes (src : PagedSource) (criteria : SearchCriteria)
  : result (list Resume) * PagedSource :=
  (pages src (Page criteria),
   {| pages := pages src; requested := requested src ++ [Page criteria] |}).

Definition PagedSource_GetResumeByID (src : PagedSource) (id : string)
  : result Resume * PagedSource :=
  (Err (ErrOther "not found"), src).

#[export] Instance PagedSource_repo : ResumeRepository PagedSource :=
  {| SearchResumes := PagedSource_SearchResumes;
     GetResumeByID := PagedSource_GetResumeByID |}.

(** A source that has not been called yet. *)
Definition paged (pages : Z → result (list Resume)) : PagedSource :=
  {| pages := pages; requested := [] |}.

(** The source that serves the given pages in turn and an empty page after
    them. *)
Definition serve (l : list (list Resume)) (page : Z) : result (list Resume) :=
  if page <? 0 then Ok [] else Ok (default [] (l !! Z.to_nat page)).

(* ===================================================================== *)
(** ** Vocabulary of the specification *)
(* ===================================================================== *)

(** The validity invariant of the specification: a non-empty identifier, a
    non-empty name or title, and at least one skill or one experience
    entry. *)
Definition spec_valid (r : Resume) : Prop :=
  ID r ≠ ""%string
  ∧ (Name r ≠ ""%string ∨ Title r ≠ ""%string)
  ∧ (Skills r ≠ [] ∨ entities.Experience r ≠ []).

(** The record as it enters the batch: with its skills normalised. *)
Definition enriched (r : Resume) : Resume :=
  fst (enrichResumeData r).

(** [st'] is [st] after one more record was kept: the record is appended to
    the batch, its identifier is marked and [SavedCount] alone moves. *)
Definition kept (st : LoopState) (r : Resume) (st' : LoopState) : Prop :=
  ls_allResumes st' = ls_allResumes st ++ [enriched r]
  ∧ ls_processed st' = markAsProcessed (ls_processed st) (ID r)
  ∧ SavedCount (ls_result st') = int_incr (SavedCount (ls_result st))
  ∧ SkippedCount (ls_result st') = SkippedCount (ls_result st).

(** [st'] is [st] after one more record was skipped: batch and map are as
    before and [SkippedCount] alone moves. *)
Definition skipped (st : LoopState) (st' : LoopState) : Prop :=
  ls_allResumes st' = ls_allResumes st
  ∧ ls_processed st' = ls_processed st
  ∧ SavedCount (ls_result st') = SavedCount (ls_result st)
  ∧ SkippedCount (ls_result st') = int_incr (SkippedCount (ls_result st)).

(** A fetch that ends the pagination loop: an error or an empty page. *)
Definition breaks (res : result (list Resume)) : Prop :=
  match res with
  | Err _ => True
  | Ok resumes => resumes = []
  end.

(** What the breaking fetch leaves in the loop state: a failed fetch of page
    [page] adds its wrapped error, an empty page adds nothing. *)
Definition finish (st : LoopState) (page : Z) (res : result (list Resume))
  : LoopState :=
  match res with
  | Err err =>
      {| ls_processed := ls_processed st;
         ls_result := add_error (ls_result st)
           (Errorf "ошибка поиска на странице %d: %w" [ArgInt page; ArgErr err]);
         ls_allResumes := ls_allResumes st |}
  | Ok _ => st
  end.

(** [serves criteria repo page pgs repo' page']: asked for the pages [page],
    [page + 1], ... in turn, the source in state [repo] answers with the
    non-empty pages [pgs] and is then in state [repo'], the next page to ask for
    being [page']. *)
Inductive serves `{HR : ResumeRepository R} (criteria : SearchCriteria)
  : R → Z → list (list Resume) → R → Z → Prop :=
| serves_nil repo page : serves criteria repo page [] repo page
| serves_cons repo page resumes repo1 pgs repo2 page2 :
    SearchResumes repo (set_Page criteria page) = (Ok resumes, repo1) →
    resumes ≠ [] →
    serves criteria repo1 (int_incr page) pgs repo2 page2 →
    serves criteria repo page (resumes :: pgs) repo2 page2.

(** The pages [0 .. n-1] of a paged source. *)
Definition pages_upto (pg : Z → result (list Resume)) (n : nat)
  : list (list Resume) :=
  (λ p, match pg p with Ok resumes => resumes | Err _ => [] end) <$> seqZ 0 (Z.of_nat n).

(** The use case once [loadProcessedResumes] has run, whatever it returned. *)
Definition loaded `{HT : StorageRepository T} {R} (uc : ResumeUseCase R T)
  : ResumeUseCase R T :=
  snd (loadProcessedResumes uc).

(** What holds of the loop variables all along a run that started from the
    processed set [P0]: the three counters add up (in Go's arithmetic),
    [SavedCount] is the length of the batch, no error was recorded yet and
    [TotalFound] is still zero, the identifiers of the batch are marked and
    pairwise distinct, and every mark comes from [P0] or from the batch. *)
Record loop_inv (P0 : gmap string bool) (st : LoopState) : Prop := {
  inv_counts :
    ProcessedCount (ls_result st)
    = int_add (SavedCount (ls_result st)) (SkippedCount (ls_result st));
  inv_saved : SavedCount (ls_result st) = int_wrap (len (ls_allResumes st));
  inv_errors : Errors (ls_result st) = [];
  inv_total : TotalFound (ls_result st) = 0;
  inv_marked :
    ∀ r, r ∈ ls_allResumes st → isAlreadyProcessed (ls_processed st) (ID r) = true;
  inv_nodup : NoDup (ID <$> ls_allResumes st);
  inv_origin :
    ∀ id, isAlreadyProcessed (ls_processed st) id = true →
          isAlreadyProcessed P0 id = true ∨ id ∈ (ID <$> ls_allResumes st);
  inv_grows :
    ∀ id, isAlreadyProcessed P0 id = true →
          isAlreadyProcessed (ls_processed st) id = true }.

(** The statements the relational script holds for one resume: its upsert,
    then one insert per experience entry, then one per education entry. *)
Definition statements (Format : Time → string → string) (resume : Resume) : string :=
  mainSQL Format resume
  +:+ foldr (λ job rest, expSQL resume job +:+ rest) "" (entities.Experience resume)
  +:+ foldr (λ edu rest, eduSQL resume edu +:+ rest) "" (Education resume).

(** The script of a batch: the statements of its resumes, in order. *)
Definition script (Format : Time → string → string) (resumes : list Resume) : string :=
  foldr (λ resume rest, statements Format resume +:+ rest) "" resumes.


(** *** Data for the examples *)

Module examples.

Definition epoch : Time := {| unix_nano := 0; zone_offset := 0 |}.

Definition no_contact : Contact :=
  {| Phone := ""; Email := ""; Telegram := ""; Skype := ""; Social_ := [] |}.

Definition resume (id name : string) (skills : list string) : Resume :=
  {| ID := id; Name := name; Skills := skills; entities.Experience := [];
     Education := []; LastUpdate := epoch; Contact_ := no_contact; URL := "";
     Title := ""; Salary_ := None; Location := ""; Age := 30; Gender := "" |}.

Definition criteria : SearchCriteria :=
  {| Keywords := ["Go"%string]; City := "Moscow"; repositories.Experience := "";
     UpdateDays := 7; Page := 0; PerPage := 20 |}.

Definition alice : Resume := resume "a" "Alice" ["Go"%string].
Definition bob : Resume := resume "b" "Bob" ["Go"; "Docker"]%string.

(** A record with an identifier and nothing else, and a later version of
    it with a name and a skill. *)
Definition draft : Resume := resume "x" "" [].
Definition completed : Resume := resume "x" "Xenia" ["Go"%string].

(** A stand-in for packages [encoding/csv] and [time] in the examples: the
    file holds the records themselves and every time prints as the empty
    string. *)
Definition no_format (t : Time) (layout : string) : string := "".

Definition csv_in_memory : StorageRepository (FileState (list (list string))) :=
  CSVStorage (list (list string)) id Ok no_format.

(** The same for package [encoding/json]. *)
Definition json_in_memory : StorageRepository (FileState (list Resume)) :=
  FileStorage (list Resume) [] Ok Ok.

(** A source whose first page holds [alice] and whose second fetch fails. *)
Definition one_page_then_timeout (page : Z) : result (list Resume) :=
  if page =? 0 then Ok [alice] else Err (ErrOther "timeout").

(** A page of [n] distinct valid records whose identifiers start with
    [prefix]. *)
Definition numbered (prefix : string) (n : nat) : list Resume :=
  (λ i, resume (prefix +:+ Sprintf_d (Z.of_nat i)) "name" ["Go"%string]) <$> seq 0 n.

End examples.

(* ===================================================================== *)
(** ** entities/resume.go: the other methods of Resume *)
(* ===================================================================== *)

(** [func (r *Resume) GetExperienceYears() int] *)
Definition GetExperienceYears (r : Resume) : Z :=
  if len (entities.Experience r) =? 0 then 0 else len (entities.Experience r).

(** The [for _, s := range r.Skills] loop of [HasSkill]. *)
Fixpoint HasSkill_loop (skills : list string) (skill : string) : bool :=
  match skills with
  | [] => false
  | s :: rest => if bool_decide (s = skill) then true else HasSkill_loop rest skill
  end.

(** [func (r *Resume) HasSkill(skill string) bool] *)
Definition HasSkill (r : Resume) (skill : string) : bool :=
  HasSkill_loop (Skills r) skill.

(** [func (r *Resume) GetLatestJob() *Job]: [None] is the nil pointer. *)
Definition GetLatestJob (r : Resume) : option Job :=
  if len (entities.Experience r) =? 0 then None else entities.Experience r !! 0%nat.

(* ===================================================================== *)
(** ** More vocabulary: what a run keeps *)
(* ===================================================================== *)

(** The identifiers a run that starts from the processed set [P0] is to keep
    of the records [stream] it meets: those of the records that pass
    validation, without the ones [P0] marks, each at its first occurrence. *)
Definition kept_ids (P0 : gmap string bool) (stream : list Resume) : list string :=
  first_occurrences
    (filter (λ id, isAlreadyProcessed P0 id = false)
       (ID <$> filter (λ r, validateResume r = true) stream)).

(** The text of one experience entry and of one education entry in a CSV
    cell: the [fmt.Sprintf] of [formatExperience] and of [formatEducation]. *)
Definition jobText (job : Job) : string :=
  Position job +:+ " at " +:+ Company job +:+ " ("
  +:+ StartDate job +:+ " - " +:+ EndDate job +:+ ")".

Definition eduText (edu : Edu) : string :=
  Institution edu +:+ ", " +:+ Specialty edu +:+ " (" +:+ Year edu +:+ ")".

(** The byte that opens and closes a string in the script. *)
Definition quote : ascii := "'"%char.

(** [t] does not begin with a quote. *)
Definition no_quote_ahead (t : string) : Prop :=
  match t with
  | String c _ => c ≠ quote
  | EmptyString => True
  end.

(* ===================================================================== *)
(** ** usecases/resume_usecase.go: GetResumeDetails *)
(* ===================================================================== *)

(** [func (uc *ResumeUseCase) getCachedResume]: [None] is the nil pointer. *)
Definition getCachedResume {R T} (uc : ResumeUseCase R T) (resumeID : string)
  : option Resume :=
  None.

(** [func (uc *ResumeUseCase) cacheResume] *)
Definition cacheResume {R T} (uc : ResumeUseCase R T) (resume : Resume)
  : ResumeUseCase R T :=
  uc.

(** [func (uc *ResumeUseCase) GetResumeDetails].  [has_cache] tells whether
    [uc.cacheRepo] is set ([uc.cacheRepo != nil]). *)
Definition GetResumeDetails `{HR : ResumeRepository R} {T}
    (has_cache : bool) (uc : ResumeUseCase R T) (resumeID : string)
  : result Resume * ResumeUseCase R T :=
  match (if has_cache then getCachedResume uc resumeID else None) with
  | Some cached => (Ok cached, uc)
  | None =>
      let '(res, repo) := GetResumeByID (resumeRepo uc) resumeID in
      let uc := {| resumeRepo := repo; storageRepo := storageRepo uc;
                   processed := processed uc |} in
      match res with
      | Err err =>
          (Err (Errorf "ошибка получения резюме %s: %w"
                  [ArgStr resumeID; ArgErr err]), uc)
      | Ok resume =>
          let uc := if has_cache then cacheResume uc resume else uc in
          (Ok resume, uc)
      end
  end.

(* ===================================================================== *)
(** ** config/config.go *)
(* ===================================================================== *)

Module config.

(** [time.Duration] is an [int64] that counts nanoseconds. *)
Definition Second : Z := 1000000000.

Record APIConfig := {
  Token : string; RateLimit : Z; UserAgent : string; Timeout : Z }.

Record SearchConfig := {
  Keywords : list string; City : string; Experience : string; UpdateDays : Z }.

Record OutputConfig := { Format : string; File : string }.

Record DatabaseConfig := {
  Host : string; Port : Z; User : string; Password : string; DBName : string }.

Record Config := {
  API : APIConfig; Search : SearchConfig; Output : OutputConfig;
  Database : DatabaseConfig; LogFile : string }.

(** [func GetDefaultConfig() *Config]: the fields it does not name have
    their zero value. *)
Definition GetDefaultConfig : Config :=
  {| API := {| Token := ""; RateLimit := Second;
               UserAgent := "HH Resume Parser v2.0"; Timeout := 30 * Second |};
     Search := {| Keywords := []; City := "Moscow"; Experience := "";
                  UpdateDays := 7 |};
     Output := {| Format := "json"; File := "resumes.json" |};
     Database := {| Host := "localhost"; Port := 5432; User := "postgres";
                    Password := ""; DBName := "resumes" |};
     LogFile := "parser.log" |}.

End config.

(* ===================================================================== *)
(** ** app/app.go *)
(* ===================================================================== *)

Module app.

(** [type Application struct].  Its fields [repository] and [storage] are
    the objects the use case holds, and [logger] only receives output. *)
Record Application (R T : Type) := {
  config_ : config.Config;
  useCase : ResumeUseCase R T }.
Arguments config_ {R T} _.
Arguments useCase {R T} _.

(** The [criteria] that [Run] builds from the configuration: [Page] is not
    named and has its zero value. *)
Definition Run_criteria (cfg : config.Config) : SearchCriteria :=
  {| repositories.Keywords := config.Keywords (config.Search cfg);
     repositories.City := config.City (config.Search cfg);
     repositories.Experience := config.Experience (config.Search cfg);
     repositories.UpdateDays := config.UpdateDays (config.Search cfg);
     Page := 0;
     PerPage := 20 |}.

(** [func (a *Application) Run() error], with the fuel of the run. *)
Definition Run `{HR : ResumeRepository R} `{HT : StorageRepository T}
    (fuel : nat) (a : Application R T) : option (option error * Application R T) :=
  match ParseResumesByCriteria fuel (useCase a) (Run_criteria (config_ a)) with
  | None => None
  | Some (result, Some err, uc) =>
      Some (Some (Errorf "ошибка парсинга: %w" [ArgErr err]),
            {| config_ := config_ a; useCase := uc |})
  | Some (result, None, uc) =>
      Some (None, {| config_ := config_ a; useCase := uc |})
  end.

End app.

(* ===================================================================== *)
(** ** Package [time], as far as the rate limiter reads it *)
(* ===================================================================== *)

(** [time.Time{}], the zero instant: January 1 of year 1, 00:00:00 UTC. *)
Definition Time_zero : Time :=
  {| unix_nano := -62135596800 * 1000000000; zone_offset := 0 |}.

(** [t.IsZero()] *)
Definition Time_IsZero (t : Time) : bool := unix_nano t =? unix_nano Time_zero.

(** [t.Sub(u)]: the duration between two instants, which is the largest or
    the smallest [Duration] when the difference does not fit. *)
Definition Time_Sub (t u : Time) : Z :=
  let d := unix_nano t - unix_nano u in
  if d <? int_min then int_min else if int_max <? d then int_max else d.

(* ===================================================================== *)
(** ** The hh.ru repository *)
(* ===================================================================== *)

Module hhrepo.

(** [type HHResumeItem struct] and the structs nested in it. *)
Record HHSkill := { SkillName : string }.
Record HHCompany := { CompanyName : string }.
Record HHExperience := {
  Company : HHCompany; Position : string; Start : string; End_ : string;
  Description : string }.
Record HHEducation := {
  EducationName : string; Organization : string; Result : string; Year : Z }.
Record HHPhone := { Formatted : string }.
Record HHEmail := { EmailEmail : string }.
Record HHContact := { Phone : HHPhone; Email : HHEmail }.
Record HHGender := { GenderName : string }.
Record HHSalary := { Amount : Z; Currency : string; Gross : bool }.

Record HHResumeItem := {
  ID : string;
  Title : string;
  FirstName : string;
  LastName : string;
  UpdatedAt : string;
  URL : string;
  Age : Z;
  Skills : list HHSkill;
  Experience : list HHExperience;
  Education : list HHEducation;
  Contact : HHContact;
  Gender : HHGender;
  Salary : HHSalary }.

(** [type hhRepository struct]: [client] and [logger] are left out. *)
Record hhRepository := {
  config_ : config.Config;
  rateLimit : Z;
  lastCall : Time }.

(** [func NewHHRepository] *)
Definition NewHHRepository (cfg : config.Config) : hhRepository :=
  {| config_ := cfg; rateLimit := config.RateLimit (config.API cfg);
     lastCall := Time_zero |}.

(** [func (r *hhRepository) applyRateLimit()].  [since] is the reading of
    the clock that [time.Since] takes (it is taken only when [lastCall] is
    set), [now] the one that the final [time.Now()] takes.  The first
    component is the argument of [time.Sleep], [None] when it is not
    called. *)
Definition applyRateLimit (r : hhRepository) (since now : Time)
  : option Z * hhRepository :=
  let slept :=
    if negb (Time_IsZero (lastCall r)) then
      let elapsed := Time_Sub since (lastCall r) in
      if elapsed <? rateLimit r then Some (int_wrap (rateLimit r - elapsed))
      else None
    else None in
  (slept, {| config_ := config_ r; rateLimit := rateLimit r; lastCall := now |}).

Section convert.
(** [strings.TrimSpace] and [time.Parse] are taken as parameters. *)
Variable TrimSpace : string → string.
Variable time_Parse : string → string → result Time.

(** The [entities.Job] built for one experience entry. *)
Definition convertJob (exp : HHExperience) : Job :=
  {| entities.Company := CompanyName (Company exp);
     entities.Position := Position exp;
     StartDate := if nonempty (Start exp) then Start exp else "";
     EndDate := if nonempty (End_ exp) then End_ exp else "";
     entities.Description := Description exp;
     Industry := "" |}.

(** The [entities.Edu] built for one education entry; [strconv.Itoa]
    prints like [%d]. *)
Definition convertEdu (edu : HHEducation) : Edu :=
  {| Institution := EducationName edu;
     Faculty := Organization edu;
     Specialty := Result edu;
     entities.Year := Sprintf_d (Year edu);
     Level := "" |}.

(** [func (r *hhRepository) convertToResume(apiItem HHResumeItem)
    entities.Resume] *)
Definition convertToResume (apiItem : HHResumeItem) : Resume :=
  {| entities.ID := ID apiItem;
     Name :=
       if nonempty (FirstName apiItem) || nonempty (LastName apiItem)
       then TrimSpace (FirstName apiItem +:+ " " +:+ LastName apiItem)
       else "";
     entities.Skills :=
       foldl (λ skills skill,
                if nonempty (SkillName skill) then skills ++ [SkillName skill]
                else skills)
             [] (Skills apiItem);
     entities.Experience :=
       foldl (λ experience exp, experience ++ [convertJob exp])
             [] (Experience apiItem);
     entities.Education :=
       foldl (λ education edu, education ++ [convertEdu edu])
             [] (Education apiItem);
     LastUpdate :=
       if nonempty (UpdatedAt apiItem) then
         match time_Parse RFC3339 (UpdatedAt apiItem) with
         | Ok updatedTime => updatedTime
         | Err _ => Time_zero
         end
       else Time_zero;
     Contact_ :=
       if nonempty (Formatted (Phone (Contact apiItem)))
          || nonempty (EmailEmail (Email (Contact apiItem)))
       then {| entities.Phone := Formatted (Phone (Contact apiItem));
               entities.Email := EmailEmail (Email (Contact apiItem));
               Telegram := ""; Skype := ""; Social_ := [] |}
       else {| entities.Phone := ""; entities.Email := ""; Telegram := "";
               Skype := ""; Social_ := [] |};
     entities.URL := URL apiItem;
     entities.Title := Title apiItem;
     Salary_ :=
       if negb (Amount (Salary apiItem) =? 0) then
         Some {| entities.Amount := Amount (Salary apiItem);
                 entities.Currency := Currency (Salary apiItem);
                 entities.Gross := Gross (Salary apiItem) |}
       else None;
     Location := "";
     entities.Age := if negb (Age apiItem =? 0) then Age apiItem else 0;
     entities.Gender :=
       if nonempty (GenderName (Gender apiItem)) then GenderName (Gender apiItem)
       else "" |}.

(** The loop of [SearchResumes] that converts the items of a decoded
    response (lines 69-73). *)
Definition convertItems (items : list HHResumeItem) : list Resume :=
  foldl (λ resumes item, resumes ++ [convertToResume item]) [] items.

End convert.

(* ------------------------------------------------------------------- *)
(** *** The search URL *)

(** The [cityMap] of [getCityAreaID]. *)
Definition cityMap : gmap string string :=
  list_to_map
    [("москва", "1");
     ("moscow", "1");
     ("санкт-петербург", "2");
     ("спб", "2");
     ("saint petersburg", "2");
     ("екатеринбург", "3");
     ("ekaterinburg", "3");
     ("новосибирск", "4");
     ("novosibirsk", "4");
     ("нижний новгород", "5");
     ("nizhny novgorod", "5");
     ("казань", "88");
     ("kazan", "88");
     ("челябинск", "91");
     ("chelyabinsk", "91");
     ("омск", "95");
     ("omsk", "95");
     ("самара", "78");
     ("samara", "78");
     ("ростов-на-дону", "76");
     ("rostov-on-don", "76");
     ("уфа", "99");
     ("ufa", "99");
     ("красноярск", "26");
     ("krasnoyarsk", "26");
     ("воронеж", "193");
     ("voronezh", "193");
     ("пермь", "75");
     ("perm", "75");
     ("волгоград", "24");
     ("volgograd", "24");
     ("краснодар", "53");
     ("krasnodar", "53")]%string.

(** [url.Values] is a map from a key to the values added under it, in the
    order they were added; this is [params.Add(key, value)]. *)
Definition Values_Add (params : gmap string (list string)) (key value : string)
  : gmap string (list string) :=
  <[key := default [] (params !! key) ++ [value]]> params.

Section search_url.
(** [strings.TrimSpace], [strings.ToLower] and [url.Values.Encode] are
    taken as parameters. *)
Variable TrimSpace : string → string.
Variable ToLower : string → string.
Variable Encode : gmap string (list string) → string.

(** [func (r *hhRepository) getCityAreaID(cityName string) string] *)
Definition getCityAreaID (cityName : string) : string :=
  let normalizedCity := ToLower (TrimSpace cityName) in
  match cityMap !! normalizedCity with
  | Some areaID => areaID
  | None => ""
  end.

(** The [params] of [buildSearchURL] when it reaches its [return]. *)
Definition searchParams (criteria : SearchCriteria) : gmap string (list string) :=
  let params : gmap string (list string) := ∅ in
  let params := Values_Add params "page" (Sprintf_d (repositories.Page criteria)) in
  let params :=
    if 0 <? len (Keywords criteria)
    then Values_Add params "text" (String.concat " " (Keywords criteria))
    else params in
  let params :=
    if nonempty (City criteria) then
      let areaID := getCityAreaID (City criteria) in
      if nonempty areaID then Values_Add params "area" areaID else params
    else params in
  let params :=
    if nonempty (repositories.Experience criteria)
    then Values_Add params "experience" (repositories.Experience criteria)
    else params in
  let params :=
    if 0 <? UpdateDays criteria
    then Values_Add params "period" (Sprintf_d (UpdateDays criteria))
    else params in
  if 0 <? PerPage criteria
  then Values_Add params "per_page" (Sprintf_d (PerPage criteria))
  else Values_Add params "per_page" "20".

(** [func (r *hhRepository) buildSearchURL(criteria) string] *)
Definition buildSearchURL (criteria : SearchCriteria) : string :=
  "https://api.hh.ru/resumes" +:+ "?" +:+ Encode (searchParams criteria).

End search_url.

End hhrepo.

(* ===================================================================== *)
(** * Properties *)
(* ===================================================================== *)

(** ** Arithmetic of Go's [int] *)

Lemma int_wrap_range z : in_range (int_wrap z).
Proof.
  unfold in_range, int_wrap, int_min, int_max.
  pose proof (Z.mod_pos_bound (z + 2 ^ 63) (2 ^ 64) ltac:(lia)). lia.
Qed.

Lemma int_wrap_small z : in_range z → int_wrap z = z.
Proof.
  unfold in_range, int_wrap, int_min, int_max. intros Hz.
  rewrite Z.mod_small by lia. lia.
Qed.

Lemma int_wrap_add_l a b : int_wrap (int_wrap a + b) = int_wrap (a + b).
Proof.
  unfold int_wrap.
  replace ((a + 2 ^ 63) mod 2 ^ 64 - 2 ^ 63 + b + 2 ^ 63)
    with ((a + 2 ^ 63) mod 2 ^ 64 + b) by lia.
  rewrite Zplus_mod_idemp_l. do 2 f_equal. lia.
Qed.

Lemma int_wrap_add_r a b : int_wrap (a + int_wrap b) = int_wrap (a + b).
Proof. rewrite (Z.add_comm a), int_wrap_add_l. f_equal. lia. Qed.

Lemma int_incr_small x : 0 <= x < int_max → int_incr x = x + 1.
Proof.
  intros Hx. unfold int_incr, int_add. apply int_wrap_small.
  unfold in_range, int_min, int_max in *. lia.
Qed.

(** ** Skill normalisation *)

Lemma nonempty_true s : nonempty s = true ↔ s ≠ ""%string.
Proof. unfold nonempty. apply bool_decide_eq_true. Qed.

Lemma nonempty_false s : nonempty s = false ↔ s = ""%string.
Proof.
  unfold nonempty. rewrite bool_decide_eq_false.
  split; [ intros Hn; destruct (decide (s = ""%string)); tauto | tauto ].
Qed.

Section first_occurrences.
Implicit Types (l : list string) (x : string).

Lemma elem_of_first_occurrences l x : x ∈ first_occurrences l ↔ x ∈ l.
Proof.
  induction l as [|y l IH]; simpl; [done|].
  rewrite !elem_of_cons, list_elem_of_filter, IH.
  destruct (decide (x = y)); tauto.
Qed.

Lemma NoDup_first_occurrences l : NoDup (first_occurrences l).
Proof.
  induction l as [|y l IH]; simpl; [constructor|].
  constructor; [ rewrite list_elem_of_filter; tauto | by apply NoDup_filter ].
Qed.

Lemma filter_ne_absent l x : x ∉ l → filter (λ y, y ≠ x) l = l.
Proof.
  induction l as [|y l IH]; intros Hx; [done|].
  rewrite not_elem_of_cons in Hx. destruct Hx as [Hxy Hxl].
  rewrite filter_cons_True by congruence. f_equal. by apply IH.
Qed.

Lemma first_occurrences_NoDup l : NoDup l → first_occurrences l = l.
Proof.
  induction 1 as [|y l Hy Hl IH]; simpl; [done|].
  rewrite IH. f_equal. by apply filter_ne_absent.
Qed.

Lemma filter_swap (P Q : string → Prop)
    `{∀ x, Decision (P x)} `{∀ x, Decision (Q x)} l :
  filter P (filter Q l) = filter Q (filter P l).
Proof. rewrite !list_filter_filter. apply list_filter_iff. tauto. Qed.

Lemma filter_first_occurrences (P : string → Prop) `{∀ x, Decision (P x)} l :
  filter P (first_occurrences l) = first_occurrences (filter P l).
Proof.
  induction l as [|y l IH]; simpl; [done|].
  destruct (decide (P y)) as [Hy|Hy].
  - rewrite !filter_cons_True by done. simpl. f_equal.
    rewrite <- IH. apply filter_swap.
  - rewrite !filter_cons_False by done.
    rewrite filter_swap, IH.
    apply filter_ne_absent.
    rewrite elem_of_first_occurrences, list_elem_of_filter. tauto.
Qed.

Lemma sublist_first_occurrences l : sublist (first_occurrences l) l.
Proof.
  induction l as [|y l IH]; simpl; [constructor|].
  apply sublist_skip. etrans; [apply sublist_filter | exact IH].
Qed.
End first_occurrences.

Lemma normalizeSkills_loop_spec skills : ∀ seen normalized,
  (∀ s, default false (seen !! s) = true ↔ s ∈ normalized) →
  normalizeSkills_loop skills seen normalized
  = normalized
    ++ first_occurrences (filter (λ s, s ≠ ""%string ∧ s ∉ normalized) skills).
Proof.
  induction skills as [|skill rest IH]; intros seen normalized Hseen; simpl.
  - by rewrite app_nil_r.
  - destruct (nonempty skill && negb (default false (seen !! skill))) eqn:Hc.
    + apply andb_true_iff in Hc as [Hne Hns].
      apply nonempty_true in Hne. apply negb_true_iff in Hns.
      assert (skill ∉ normalized) as Hnotin.
      { intros Hin. apply Hseen in Hin. congruence. }
      rewrite IH.
      * rewrite filter_cons_True by done. simpl.
        rewrite <- app_assoc. simpl. do 2 f_equal.
        rewrite filter_first_occurrences, list_filter_filter.
        f_equal. apply list_filter_iff. intros s.
        rewrite not_elem_of_app, list_elem_of_singleton. tauto.
      * intros s. rewrite elem_of_app, list_elem_of_singleton.
        destruct (decide (skill = s)) as [->|Hs].
        -- rewrite lookup_insert_eq. simpl. tauto.
        -- rewrite lookup_insert_ne by done. rewrite Hseen.
           split; [tauto | intros [?|?]; [done | congruence]].
    + rewrite filter_cons_False; [by apply IH|].
      intros [Hne Hnotin]. apply andb_false_iff in Hc as [Hc|Hc].
      * apply nonempty_false in Hc. done.
      * apply negb_false_iff in Hc. apply Hseen in Hc. done.
Qed.

Lemma normalizeSkills_spec skills : normalizeSkills skills = spec_normalize skills.
Proof.
  unfold normalizeSkills, spec_normalize.
  rewrite normalizeSkills_loop_spec.
  - simpl. f_equal. apply list_filter_iff. intros s.
    rewrite elem_of_nil. tauto.
  - intros s. rewrite lookup_empty, elem_of_nil. simpl. split; [done | tauto].
Qed.

(** C6.  For every skill list the code's normalisation is the list of first
    occurrences of the non-empty entries: it has no empty entry and no
    duplicate, holds exactly the non-empty entries of the input, keeps them in
    the order of the input, and applying it twice changes nothing; on
    ["Go"; ""; "Go"; "Docker"] it gives ["Go"; "Docker"]. *)
Theorem C6_normalizeSkills_dedup_order_idempotent :
  (∀ skills : list string,
      normalizeSkills skills = spec_normalize skills
      ∧ (""%string ∉ normalizeSkills skills)
      ∧ NoDup (normalizeSkills skills)
      ∧ (∀ s, s ∈ normalizeSkills skills ↔ s ∈ skills ∧ s ≠ ""%string)
      ∧ sublist (normalizeSkills skills) skills
      ∧ normalizeSkills (normalizeSkills skills) = normalizeSkills skills)
  ∧ normalizeSkills ["Go"; ""; "Go"; "Docker"]%string = ["Go"; "Docker"]%string.
Proof.
  split; [|reflexivity].
  intros skills.
  assert (∀ s, s ∈ normalizeSkills skills ↔ s ∈ skills ∧ s ≠ ""%string) as Hmem.
  { intros s. rewrite normalizeSkills_spec. unfold spec_normalize.
    rewrite elem_of_first_occurrences, list_elem_of_filter. tauto. }
  split; [apply normalizeSkills_spec|].
  split; [rewrite Hmem; tauto|].
  split; [rewrite normalizeSkills_spec; apply NoDup_first_occurrences|].
  split; [exact Hmem|].
  split.
  - rewrite normalizeSkills_spec. unfold spec_normalize.
    etrans; [apply sublist_first_occurrences | apply sublist_filter].
  - rewrite !normalizeSkills_spec. unfold spec_normalize.
    rewrite filter_first_occurrences.
    assert (filter (λ s, s ≠ ""%string) (filter (λ s, s ≠ ""%string) skills)
            = filter (λ s, s ≠ ""%string) skills) as ->.
    { rewrite list_filter_filter. apply list_filter_iff. tauto. }
    apply first_occurrences_NoDup, NoDup_first_occurrences.
Qed.

(** ** Validation and the body of the loop *)

Lemma len_zero {A} (l : list A) : (len l =? 0) = true ↔ l = [].
Proof.
  unfold len. rewrite Z.eqb_eq. destruct l; simpl; [tauto|].
  split; [lia | discriminate].
Qed.

Lemma len_pos {A} (l : list A) : (0 <? len l) = true ↔ l ≠ [].
Proof.
  unfold len. rewrite Z.ltb_lt. destruct l; simpl; [|split; [discriminate|lia]].
  split; [lia | congruence].
Qed.

Lemma validateResume_spec r : validateResume r = true ↔ spec_valid r.
Proof.
  unfold validateResume, spec_valid, IsValid.
  destruct (nonempty (ID r)) eqn:Hid; simpl.
  - apply nonempty_true in Hid.
    destruct (nonempty (Name r) || nonempty (Title r)) eqn:Hnt; simpl.
    + apply orb_true_iff in Hnt. rewrite !nonempty_true in Hnt.
      destruct (len (Skills r) =? 0) eqn:Hs; simpl.
      * apply len_zero in Hs.
        destruct (len (entities.Experience r) =? 0) eqn:He.
        -- apply len_zero in He. rewrite Hs, He.
           split; [discriminate | intros (_ & _ & [?|?]); congruence].
        -- assert (entities.Experience r ≠ []) by (rewrite <- len_zero; congruence).
           tauto.
      * assert (Skills r ≠ []) by (rewrite <- len_zero; congruence). tauto.
    + apply orb_false_iff in Hnt. rewrite !nonempty_false in Hnt.
      split; [discriminate | intros (_ & [?|?] & _); tauto].
  - apply nonempty_false in Hid. split; [discriminate | tauto].
Qed.

Lemma validateResume_false r : validateResume r = false ↔ ¬ spec_valid r.
Proof.
  rewrite <- validateResume_spec.
  destruct (validateResume r); split; congruence.
Qed.

(** The three ways through the body of the loop. *)
Lemma processResume_duplicate st r :
  isAlreadyProcessed (ls_processed st) (ID r) = true →
  skipped st (processResume st r).
Proof. intros H. unfold processResume. rewrite H. by repeat split. Qed.

Lemma processResume_invalid st r :
  validateResume r = false → skipped st (processResume st r).
Proof.
  intros H. unfold processResume. rewrite H. simpl.
  destruct (isAlreadyProcessed _ _); by repeat split.
Qed.

Lemma processResume_fresh_valid st r :
  isAlreadyProcessed (ls_processed st) (ID r) = false →
  validateResume r = true →
  kept st r (processResume st r).
Proof. intros H1 H2. unfold processResume. rewrite H1, H2. by repeat split. Qed.

Lemma processResume_cases st r :
  skipped st (processResume st r) ∨ kept st r (processResume st r).
Proof.
  destruct (isAlreadyProcessed (ls_processed st) (ID r)) eqn:H1;
    [left; by apply processResume_duplicate|].
  destruct (validateResume r) eqn:H2;
    [right; by apply processResume_fresh_valid | left; by apply processResume_invalid].
Qed.

Lemma kept_not_skipped st r st' : kept st r st' → ¬ skipped st st'.
Proof.
  intros (Hk & _) (Hs & _). rewrite Hs in Hk.
  apply (f_equal length) in Hk. rewrite length_app in Hk. simpl in Hk. lia.
Qed.

(** C4 (as amended).  The validation of the code is the validity invariant.
    A record whose identifier is not yet in the processed set is kept exactly
    when it satisfies the invariant, and skipped exactly when it does not.
    Whatever the state, a record with an empty identifier is skipped, and so
    is one with an identifier and a name but neither skills nor experience;
    the latter with one skill added is kept when its identifier is new. *)
Theorem C4_kept_iff_valid_when_new :
  (∀ r, validateResume r = true ↔ spec_valid r)
  ∧ (∀ st r,
        isAlreadyProcessed (ls_processed st) (ID r) = false →
        (kept st r (processResume st r) ↔ spec_valid r)
        ∧ (skipped st (processResume st r) ↔ ¬ spec_valid r))
  ∧ (∀ st r, ID r = ""%string → skipped st (processResume st r))
  ∧ (∀ st r,
        Skills r = [] → entities.Experience r = [] →
        skipped st (processResume st r))
  ∧ (∀ st r skill,
        isAlreadyProcessed (ls_processed st) (ID r) = false →
        ID r ≠ ""%string → Name r ≠ ""%string →
        kept st (set_Skills r [skill]) (processResume st (set_Skills r [skill]))).
Proof.
  split; [apply validateResume_spec|].
  split; [|split; [|split]].
  - intros st r Hnew.
    destruct (validateResume r) eqn:Hv.
    + pose proof (processResume_fresh_valid st r Hnew Hv) as Hk.
      apply validateResume_spec in Hv.
      split; [tauto|]. split; [|tauto].
      intros Hs. by apply kept_not_skipped in Hk.
    + pose proof (processResume_invalid st r Hv) as Hs.
      apply validateResume_false in Hv.
      split; [|tauto]. split; [|tauto].
      intros Hk. by apply kept_not_skipped in Hk.
  - intros st r Hid. apply processResume_invalid, validateResume_false.
    intros (? & _). done.
  - intros st r Hs He. apply processResume_invalid, validateResume_false.
    intros (_ & _ & [?|?]); done.
  - intros st r skill Hnew Hid Hname.
    apply processResume_fresh_valid; [exact Hnew|].
    apply validateResume_spec. unfold spec_valid. simpl.
    split; [done|]. split; [by left | by left].
Qed.

(** The hypothesis of C4 is met by the first record of a run: [alice] is new
    to the empty processed set and valid, so she is kept. *)
Lemma C4_witness :
  kept (enterLoop ∅) examples.alice (processResume (enterLoop ∅) examples.alice).
Proof.
  destruct C4_kept_iff_valid_when_new as (_ & Hnew & _).
  apply (Hnew (enterLoop ∅) examples.alice).
  - vm_compute. reflexivity.
  - unfold spec_valid. simpl. repeat split; (discriminate || (left; discriminate)).
Defined.

(** C4 as the specification words it fails: [alice] is valid, yet when her
    identifier has been processed before she is skipped, not kept. *)
Lemma C4_counterexample :
  let st := processResume (enterLoop ∅) examples.alice in
  spec_valid examples.alice
  ∧ skipped st (processResume st examples.alice)
  ∧ ¬ kept st examples.alice (processResume st examples.alice).
Proof.
  intros st.
  assert (skipped st (processResume st examples.alice)) as Hs.
  { apply processResume_duplicate. vm_compute. reflexivity. }
  split; [|split; [exact Hs|]].
  - unfold spec_valid. simpl. repeat split; (discriminate || (left; discriminate)).
  - intros Hk. by apply kept_not_skipped in Hk.
Qed.

(** ** Invariants of the loop *)

Lemma isAlreadyProcessed_mark P id id' :
  isAlreadyProcessed (markAsProcessed P id) id'
  = if decide (id = id') then true else isAlreadyProcessed P id'.
Proof.
  unfold isAlreadyProcessed, markAsProcessed.
  destruct (decide (id = id')) as [->|Hne].
  - by rewrite lookup_insert_eq.
  - by rewrite lookup_insert_ne.
Qed.

Lemma isAlreadyProcessed_empty id : isAlreadyProcessed ∅ id = false.
Proof. unfold isAlreadyProcessed. by rewrite lookup_empty. Qed.

Lemma isAlreadyProcessed_load ids : ∀ P id,
  isAlreadyProcessed (foldl markAsProcessed P ids) id = true
  ↔ isAlreadyProcessed P id = true ∨ id ∈ ids.
Proof.
  induction ids as [|i ids IH]; intros P id; simpl.
  - rewrite elem_of_nil. tauto.
  - rewrite IH, isAlreadyProcessed_mark, elem_of_cons.
    destruct (decide (i = id)) as [->|Hne]; [tauto|].
    split; [tauto | intros [?|[?|?]]; [tauto | congruence | tauto]].
Qed.

Lemma ID_enriched r : ID (enriched r) = ID r.
Proof. reflexivity. Qed.

Lemma processPage_app st l1 l2 :
  processPage st (l1 ++ l2) = processPage (processPage st l1) l2.
Proof. unfold processPage. apply foldl_app. Qed.

Lemma processPage_cons st r l :
  processPage st (r :: l) = processPage (processResume st r) l.
Proof. reflexivity. Qed.

(** A property kept by the body of the loop is kept by the loop. *)
Lemma processPage_preserves (Inv : LoopState → Prop) :
  (∀ st r, Inv st → Inv (processResume st r)) →
  ∀ l st, Inv st → Inv (processPage st l).
Proof.
  intros Hstep l. induction l as [|r l IH]; intros st Hst; [exact Hst|].
  rewrite processPage_cons. apply IH, Hstep, Hst.
Qed.

Lemma loop_inv_enter P0 : loop_inv P0 (enterLoop P0).
Proof.
  split; simpl; try done.
  - intros r Hr. by apply elem_of_nil in Hr.
  - constructor.
  - tauto.
Qed.

Lemma loop_inv_skipped P0 st st' :
  loop_inv P0 st → skipped st st' →
  ProcessedCount (ls_result st') = int_incr (ProcessedCount (ls_result st)) →
  Errors (ls_result st') = Errors (ls_result st) →
  TotalFound (ls_result st') = TotalFound (ls_result st) →
  loop_inv P0 st'.
Proof.
  intros [Hc Hs He Ht Hm Hn Ho Hg] (Ha & Hp & Hsv & Hsk) Hpc Her Htf.
  split; rewrite ?Ha, ?Hp, ?Hsv, ?Hsk, ?Hpc, ?Her, ?Htf; try done.
  rewrite Hc. unfold int_incr, int_add.
  rewrite int_wrap_add_l, int_wrap_add_r. f_equal. lia.
Qed.

Lemma loop_inv_kept P0 st r st' :
  loop_inv P0 st → kept st r st' →
  isAlreadyProcessed (ls_processed st) (ID r) = false →
  ProcessedCount (ls_result st') = int_incr (ProcessedCount (ls_result st)) →
  Errors (ls_result st') = Errors (ls_result st) →
  TotalFound (ls_result st') = TotalFound (ls_result st) →
  loop_inv P0 st'.
Proof.
  intros [Hc Hs He Ht Hm Hn Ho Hg] (Ha & Hp & Hsv & Hsk) Hnew Hpc Her Htf.
  split; rewrite ?Ha, ?Hp, ?Hsv, ?Hsk, ?Hpc, ?Her, ?Htf; try done.
  - rewrite Hc. unfold int_incr, int_add.
    rewrite !int_wrap_add_l. f_equal. lia.
  - rewrite Hs. unfold int_incr, int_add, len.
    rewrite int_wrap_add_l, length_app. simpl. f_equal. lia.
  - intros r' Hr'. rewrite isAlreadyProcessed_mark.
    apply elem_of_app in Hr' as [Hr'|Hr'].
    + destruct (decide _); [done | by apply Hm].
    + apply list_elem_of_singleton in Hr' as ->.
      rewrite ID_enriched. by rewrite decide_True.
  - rewrite fmap_app. simpl.
    apply NoDup_app. split; [exact Hn|]. split; [|apply NoDup_singleton].
    intros id Hin Hid. apply list_elem_of_singleton in Hid as ->.
    apply list_elem_of_fmap in Hin as (r' & Heq & Hr').
    apply Hm in Hr'. congruence.
  - intros id. rewrite isAlreadyProcessed_mark, fmap_app, elem_of_app.
    simpl. rewrite list_elem_of_singleton.
    destruct (decide (ID r = id)) as [<-|Hne]; [tauto|].
    intros Hid. apply Ho in Hid. tauto.
  - intros id Hid. rewrite isAlreadyProcessed_mark.
    destruct (decide _); [done | by apply Hg].
Qed.

Lemma processResume_result st r :
  ProcessedCount (ls_result (processResume st r))
  = int_incr (ProcessedCount (ls_result st))
  ∧ Errors (ls_result (processResume st r)) = Errors (ls_result st)
  ∧ TotalFound (ls_result (processResume st r)) = TotalFound (ls_result st).
Proof.
  unfold processResume.
  destruct (isAlreadyProcessed _ _); [done|].
  destruct (validateResume r); done.
Qed.

Lemma loop_inv_processResume P0 st r :
  loop_inv P0 st → loop_inv P0 (processResume st r).
Proof.
  intros Hinv. destruct (processResume_result st r) as (Hpc & Her & Htf).
  destruct (isAlreadyProcessed (ls_processed st) (ID r)) eqn:Hdup.
  - eapply loop_inv_skipped; eauto using processResume_duplicate.
  - destruct (validateResume r) eqn:Hv.
    + eapply loop_inv_kept; eauto using processResume_fresh_valid.
    + eapply loop_inv_skipped; eauto using processResume_invalid.
Qed.

Lemma loop_inv_processPage P0 l st :
  loop_inv P0 st → loop_inv P0 (processPage st l).
Proof.
  apply (processPage_preserves (loop_inv P0)).
  intros ? ?. apply loop_inv_processResume.
Qed.

(** The marks only grow. *)
Lemma processResume_mono st r id :
  isAlreadyProcessed (ls_processed st) id = true →
  isAlreadyProcessed (ls_processed (processResume st r)) id = true.
Proof.
  intros Hid. destruct (processResume_cases st r) as [(_ & -> & _)|(_ & -> & _)];
    [done|].
  rewrite isAlreadyProcessed_mark. by destruct (decide _).
Qed.

Lemma processPage_mono l : ∀ st id,
  isAlreadyProcessed (ls_processed st) id = true →
  isAlreadyProcessed (ls_processed (processPage st l)) id = true.
Proof.
  induction l as [|r l IH]; intros st id Hid; [done|].
  rewrite processPage_cons. by apply IH, processResume_mono.
Qed.

(** Every record the loop has seen is marked or fails validation. *)
Lemma processPage_seen l : ∀ st r,
  r ∈ l →
  isAlreadyProcessed (ls_processed (processPage st l)) (ID r) = true
  ∨ validateResume r = false.
Proof.
  induction l as [|r0 l IH]; intros st r Hr; [by apply elem_of_nil in Hr|].
  rewrite processPage_cons.
  apply elem_of_cons in Hr as [->|Hr]; [|by apply IH].
  destruct (validateResume r0) eqn:Hv; [left|by right].
  apply processPage_mono.
  destruct (isAlreadyProcessed (ls_processed st) (ID r0)) eqn:Hdup.
  - by apply processResume_mono.
  - destruct (processResume_fresh_valid st r0 Hdup Hv) as (_ & -> & _).
    rewrite isAlreadyProcessed_mark. by rewrite decide_True.
Qed.

(** The number of records counted is the number of records met. *)
Lemma processPage_ProcessedCount l : ∀ st n,
  ProcessedCount (ls_result st) = int_wrap n →
  ProcessedCount (ls_result (processPage st l)) = int_wrap (n + len l).
Proof.
  induction l as [|r l IH]; intros st n Hn.
  - unfold len. simpl. by rewrite Z.add_0_r.
  - rewrite processPage_cons. rewrite (IH _ (n + 1)).
    + f_equal. unfold len. simpl length. lia.
    + destruct (processResume_result st r) as (-> & _).
      rewrite Hn. unfold int_incr, int_add. apply int_wrap_add_l.
Qed.

(** ** The pagination loop *)

Section pagination.
Context `{HR : ResumeRepository R}.
Implicit Types (repo : R) (criteria : SearchCriteria) (st : LoopState).

Lemma breaks_Ok_iff (resumes : list Resume) :
  breaks (Ok resumes) ↔ (len resumes =? 0) = true.
Proof. simpl. by rewrite len_zero. Qed.

(** The [Page] the criteria carried into an iteration is overwritten. *)
Lemma paginate_set_Page fuel repo criteria p page st :
  paginate fuel repo (set_Page criteria p) page st
  = paginate fuel repo criteria page st.
Proof. destruct fuel; reflexivity. Qed.

(** A source that serves [pgs] and then breaks the loop makes the loop
    return, with any fuel above the number of pages. *)
Lemma paginate_run criteria repo page pgs repo_n page_n :
  serves criteria repo page pgs repo_n page_n →
  ∀ res repo' st fuel,
    SearchResumes repo_n (set_Page criteria page_n) = (res, repo') →
    breaks res →
    (length pgs < fuel)%nat →
    paginate fuel repo criteria page st
    = Some (repo', finish (processPage st (concat pgs)) page_n res).
Proof.
  induction 1 as [repo page | repo page resumes repo1 pgs repo2 page2 Hcall Hne _ IH];
    intros res repo' st fuel Hlast Hbr Hfuel.
  - destruct fuel as [|fuel]; [simpl in Hfuel; lia|].
    simpl. rewrite Hlast. destruct res as [resumes|err]; [|done].
    simpl in Hbr. subst resumes. done.
  - destruct fuel as [|fuel]; [simpl in Hfuel; lia|].
    simpl. rewrite Hcall.
    destruct (len resumes =? 0) eqn:Hlen; [by apply len_zero in Hlen|].
    rewrite paginate_set_Page, processPage_app.
    apply IH; [done | done | simpl in Hfuel; lia].
Qed.

(** Conversely a loop that returned was served some pages and then met
    the fetch that broke it. *)
Lemma paginate_inv fuel : ∀ criteria repo page st repo' st',
  paginate fuel repo criteria page st = Some (repo', st') →
  ∃ pgs repo_n page_n res,
    serves criteria repo page pgs repo_n page_n
    ∧ SearchResumes repo_n (set_Page criteria page_n) = (res, repo')
    ∧ breaks res
    ∧ (length pgs < fuel)%nat
    ∧ st' = finish (processPage st (concat pgs)) page_n res.
Proof.
  induction fuel as [|fuel IH]; intros criteria repo page st repo' st' Hrun;
    [discriminate|].
  simpl in Hrun.
  destruct (SearchResumes repo (set_Page criteria page)) as [[resumes|err] repo1] eqn:Hcall.
  - destruct (len resumes =? 0) eqn:Hlen.
    + injection Hrun as <- <-. apply len_zero in Hlen.
      exists [], repo, page, (Ok resumes).
      split; [constructor|]. split; [done|]. split; [done|].
      split; [simpl; lia | done].
    + rewrite paginate_set_Page in Hrun.
      apply IH in Hrun as (pgs & repo_n & page_n & res & Hs & Hlast & Hbr & Hf & ->).
      exists (resumes :: pgs), repo_n, page_n, res.
      split.
      { econstructor; [exact Hcall | | exact Hs].
        intros ->. by rewrite (proj2 (len_zero [])) in Hlen. }
      split; [done|]. split; [done|]. split; [simpl; lia|].
      simpl. by rewrite processPage_app.
  - injection Hrun as <- <-.
    exists [], repo, page, (Err err).
    split; [constructor|]. split; [done|]. split; [done|].
    split; [simpl; lia | done].
Qed.

(** More fuel does not change what the loop returns. *)
Lemma paginate_more_fuel fuel fuel' criteria repo page st out :
  paginate fuel repo criteria page st = Some out →
  (fuel ≤ fuel')%nat →
  paginate fuel' repo criteria page st = Some out.
Proof.
  destruct out as [repo' st']. intros Hrun Hle.
  apply paginate_inv in Hrun
    as (pgs & repo_n & page_n & res & Hs & Hlast & Hbr & Hf & ->).
  eapply paginate_run; eauto. lia.
Qed.

(** The loop variables keep their invariant, apart from the error a
    failed fetch adds. *)
Lemma finish_fields st page res :
  ls_processed (finish st page res) = ls_processed st
  ∧ ls_allResumes (finish st page res) = ls_allResumes st
  ∧ ProcessedCount (ls_result (finish st page res)) = ProcessedCount (ls_result st)
  ∧ SavedCount (ls_result (finish st page res)) = SavedCount (ls_result st)
  ∧ SkippedCount (ls_result (finish st page res)) = SkippedCount (ls_result st)
  ∧ TotalFound (ls_result (finish st page res)) = TotalFound (ls_result st).
Proof. by destruct res. Qed.

End pagination.

(** ** ParseResumesByCriteria *)

Section run.
Context `{HR : ResumeRepository R} `{HT : StorageRepository T}.
Implicit Types (uc : ResumeUseCase R T) (criteria : SearchCriteria).

(** The run is the loading, then the loop, then the flush. *)
Lemma ParseResumesByCriteria_unfold fuel uc criteria :
  ParseResumesByCriteria fuel uc criteria
  = match paginate fuel (resumeRepo (loaded uc)) criteria 0
            (enterLoop (processed (loaded uc))) with
    | None => None
    | Some (repo, st) =>
        if 0 <? len (ls_allResumes st) then
          match SaveResumes (storageRepo (loaded uc)) (ls_allResumes st) with
          | (Some err, storage) =>
              Some (ls_result st,
                    Some (Errorf "ошибка сохранения резюме: %w" [ArgErr err]),
                    {| resumeRepo := repo; storageRepo := storage;
                       processed := ls_processed st |})
          | (None, storage) =>
              Some (set_TotalFound (ls_result st), None,
                    {| resumeRepo := repo; storageRepo := storage;
                       processed := ls_processed st |})
          end
        else
          Some (set_TotalFound (ls_result st), None,
                {| resumeRepo := repo; storageRepo := storageRepo (loaded uc);
                   processed := ls_processed st |})
    end.
Proof.
  unfold ParseResumesByCriteria, loaded.
  by destruct (loadProcessedResumes uc) as [oerr uc1].
Qed.

(** Loading does not touch the source, and only adds marks. *)
Lemma loaded_resumeRepo uc : resumeRepo (loaded uc) = resumeRepo uc.
Proof.
  unfold loaded, loadProcessedResumes.
  by destruct (GetSavedResumeIDs (storageRepo uc)) as [[ids|err] storage].
Qed.

Lemma loaded_processed uc id :
  isAlreadyProcessed (processed (loaded uc)) id = true
  ↔ isAlreadyProcessed (processed uc) id = true
    ∨ ∃ ids, fst (GetSavedResumeIDs (storageRepo uc)) = Ok ids ∧ id ∈ ids.
Proof.
  unfold loaded, loadProcessedResumes.
  destruct (GetSavedResumeIDs (storageRepo uc)) as [[ids|err] storage]; simpl.
  - rewrite isAlreadyProcessed_load. split; [|intros [?|(ids' & [= <-] & ?)]; tauto].
    intros [?|?]; [tauto | right; by exists ids].
  - split; [tauto | intros [?|(ids' & ? & ?)]; [done | discriminate]].
Qed.

(** What the loop leaves when it returns, in terms of the pages served. *)
Lemma paginate_loop_inv fuel criteria repo page P0 repo' st' :
  paginate fuel repo criteria page (enterLoop P0) = Some (repo', st') →
  ProcessedCount (ls_result st')
  = int_add (SavedCount (ls_result st')) (SkippedCount (ls_result st'))
  ∧ SavedCount (ls_result st') = int_wrap (len (ls_allResumes st'))
  ∧ TotalFound (ls_result st') = 0
  ∧ NoDup (ID <$> ls_allResumes st').
Proof.
  intros Hrun.
  apply paginate_inv in Hrun
    as (pgs & repo_n & page_n & res & _ & _ & _ & _ & ->).
  destruct (finish_fields (processPage (enterLoop P0) (concat pgs)) page_n res)
    as (_ & -> & -> & -> & -> & ->).
  pose proof (loop_inv_processPage P0 (concat pgs) _ (loop_inv_enter P0)) as Hinv.
  split; [apply Hinv|]. split; [apply Hinv|]. split; apply Hinv.
Qed.

(** On every run that returns, the counters add up in Go's arithmetic;
    [TotalFound] is [ProcessedCount] when the run returns no error, and is
    still zero when it returns one. *)
Lemma run_counts fuel uc criteria result rerr uc' :
  ParseResumesByCriteria fuel uc criteria = Some (result, rerr, uc') →
  ProcessedCount result = int_add (SavedCount result) (SkippedCount result)
  ∧ (rerr = None → TotalFound result = ProcessedCount result)
  ∧ (rerr ≠ None → TotalFound result = 0).
Proof.
  rewrite ParseResumesByCriteria_unfold.
  destruct (paginate _ _ _ _ _) as [[repo st]|] eqn:Hrun; [|discriminate].
  apply paginate_loop_inv in Hrun as (Hc & _ & Ht & _).
  destruct (0 <? len (ls_allResumes st)).
  - destruct (SaveResumes _ _) as [[err|] storage]; intros [= <- <- <-]; simpl;
      (split; [exact Hc|]); split; congruence.
  - intros [= <- <- <-]; simpl. split; [exact Hc|]. split; congruence.
Qed.

(** A run returns as soon as the source breaks the loop. *)
Lemma ParseResumesByCriteria_returns fuel uc criteria pgs repo_n page_n res repo' :
  serves criteria (resumeRepo (loaded uc)) 0 pgs repo_n page_n →
  SearchResumes repo_n (set_Page criteria page_n) = (res, repo') →
  breaks res →
  (length pgs < fuel)%nat →
  ∃ result rerr uc',
    ParseResumesByCriteria fuel uc criteria = Some (result, rerr, uc')
    ∧ resumeRepo uc' = repo'.
Proof.
  intros Hs Hlast Hbr Hfuel.
  rewrite ParseResumesByCriteria_unfold.
  rewrite (paginate_run _ _ _ _ _ _ Hs res repo' _ fuel Hlast Hbr Hfuel).
  destruct (0 <? len _); [destruct (SaveResumes _ _) as [[err|] storage]|];
    eexists _, _, _; (split; [reflexivity | done]).
Qed.

(** C2.  Once the loop has returned with the batch [ls_allResumes st]: if
    the batch is not empty and the one call of [SaveResumes] on the whole
    batch fails, the run returns that failure wrapped as its error together
    with the result of the loop, whose [SavedCount] is the number of records
    in the batch, and the storage is left as that one call left it; if the
    batch is empty the run returns no error and the storage is as loading
    left it, [SaveResumes] not being called. *)
Theorem C2_failed_flush_returns_error_and_counts
    fuel uc criteria repo st :
  paginate fuel (resumeRepo (loaded uc)) criteria 0
    (enterLoop (processed (loaded uc))) = Some (repo, st) →
  (∀ err storage,
      ls_allResumes st ≠ [] →
      SaveResumes (storageRepo (loaded uc)) (ls_allResumes st) = (Some err, storage) →
      ParseResumesByCriteria fuel uc criteria
      = Some (ls_result st,
              Some (Errorf "ошибка сохранения резюме: %w" [ArgErr err]),
              {| resumeRepo := repo; storageRepo := storage;
                 processed := ls_processed st |})
      ∧ SavedCount (ls_result st) = int_wrap (len (ls_allResumes st))
      ∧ (len (ls_allResumes st) <= int_max →
         SavedCount (ls_result st) = len (ls_allResumes st)))
  ∧ (ls_allResumes st = [] →
     ParseResumesByCriteria fuel uc criteria
     = Some (set_TotalFound (ls_result st), None,
             {| resumeRepo := repo; storageRepo := storageRepo (loaded uc);
                processed := ls_processed st |})).
Proof.
  intros Hrun. split.
  - intros err storage Hne Hsave.
    rewrite ParseResumesByCriteria_unfold, Hrun.
    rewrite (proj2 (len_pos _) Hne), Hsave.
    apply paginate_loop_inv in Hrun as (_ & Hs & _).
    split; [done|]. split; [exact Hs|].
    intros Hle. rewrite Hs. apply int_wrap_small.
    unfold in_range, int_min, len in *. lia.
  - intros Hnil.
    rewrite ParseResumesByCriteria_unfold, Hrun, Hnil. done.
Qed.

(** C3.  When the source has served the pages [pgs] and its next answer is
    the error [err]: the run returns (with any fuel above the number of
    pages); its [Errors] hold that error, wrapped with the page number, and
    nothing else; the source is left as the failing call left it; the
    records kept so far are flushed by one [SaveResumes] (none when there are
    none); and the error the run returns is that of the flush, so it is
    nil exactly when there was nothing to flush or the flush succeeded. *)
Theorem C3_fetch_failure_stops_pagination_and_still_flushes
    uc criteria pgs repo_n page_n err repo' fuel :
  serves criteria (resumeRepo (loaded uc)) 0 pgs repo_n page_n →
  SearchResumes repo_n (set_Page criteria page_n) = (Err err, repo') →
  (length pgs < fuel)%nat →
  let st := processPage (enterLoop (processed (loaded uc))) (concat pgs) in
  let flushed := SaveResumes (storageRepo (loaded uc)) (ls_allResumes st) in
  ∃ result rerr uc',
    ParseResumesByCriteria fuel uc criteria = Some (result, rerr, uc')
    ∧ Errors result
      = [Errorf "ошибка поиска на странице %d: %w" [ArgInt page_n; ArgErr err]]
    ∧ resumeRepo uc' = repo'
    ∧ SavedCount result = int_wrap (len (ls_allResumes st))
    ∧ (ls_allResumes st ≠ [] →
       storageRepo uc' = snd flushed
       ∧ rerr = (λ e, Errorf "ошибка сохранения резюме: %w" [ArgErr e]) <$> fst flushed)
    ∧ (ls_allResumes st = [] →
       storageRepo uc' = storageRepo (loaded uc) ∧ rerr = None)
    ∧ (rerr = None ↔ ls_allResumes st = [] ∨ fst flushed = None).
Proof.
  intros Hs Hlast Hfuel st flushed.
  pose proof (paginate_run _ _ _ _ _ _ Hs (Err err) repo' (enterLoop (processed (loaded uc)))
                fuel Hlast I Hfuel) as Hrun.
  fold st in Hrun.
  pose proof (loop_inv_processPage _ (concat pgs) _
                (loop_inv_enter (processed (loaded uc)))) as Hinv.
  fold st in Hinv.
  rewrite ParseResumesByCriteria_unfold, Hrun. simpl.
  destruct (0 <? len (ls_allResumes st)) eqn:Hlen.
  - apply len_pos in Hlen. subst flushed.
    destruct (SaveResumes (storageRepo (loaded uc)) (ls_allResumes st))
      as [[e|] storage]; simpl.
    + eexists _, _, _. split; [reflexivity|]. simpl.
      rewrite (inv_errors _ _ Hinv).
      split; [done|]. split; [done|]. split; [apply Hinv|].
      split; [done|]. split; [done|].
      split; [discriminate | intros [?|?]; [done|discriminate]].
    + eexists _, _, _. split; [reflexivity|]. simpl.
      rewrite (inv_errors _ _ Hinv).
      split; [done|]. split; [done|]. split; [apply Hinv|].
      split; [done|]. split; [done|]. split; [by right | done].
  - assert (ls_allResumes st = []) as Hnil.
    { destruct (ls_allResumes st) eqn:E; [done|].
      by rewrite (proj2 (len_pos (r :: l))) in Hlen. }
    eexists _, _, _. split; [reflexivity|]. simpl.
    rewrite (inv_errors _ _ Hinv).
    split; [done|]. split; [done|]. split; [apply Hinv|].
    split; [done|]. split; [done|]. split; [by left | done].
Qed.

End run.

(** C2 at work: the sink cannot be created, the one record kept is reported
    as saved and the failure of [SaveResumes] comes back wrapped. *)
Lemma C2_witness :
  let uc := NewResumeUseCase (paged (serve [[examples.alice]]))
              (Denied : FileState (list (list string))) in
  let st := processPage (enterLoop ∅) [examples.alice] in
  ParseResumesByCriteria (HT := examples.csv_in_memory) 2 uc examples.criteria
  = Some (ls_result st,
          Some (Errorf "ошибка сохранения резюме: %w"
                  [ArgErr (Errorf "ошибка создания файла: %w" [ArgErr ErrPermission])]),
          {| resumeRepo := {| pages := serve [[examples.alice]]; requested := [0; 1] |};
             storageRepo := Denied; processed := ls_processed st |})
  ∧ SavedCount (ls_result st) = 1.
Proof.
  intros uc st.
  destruct (C2_failed_flush_returns_error_and_counts
              (HT := examples.csv_in_memory) 2 uc examples.criteria
              {| pages := serve [[examples.alice]]; requested := [0; 1] |} st)
    as [Hfail _].
  { vm_compute. reflexivity. }
  destruct (Hfail (Errorf "ошибка создания файла: %w" [ArgErr ErrPermission]) Denied)
    as (Hrun & _ & Hsaved).
  { vm_compute. discriminate. }
  { vm_compute. reflexivity. }
  split; [exact Hrun|].
  rewrite Hsaved; [reflexivity | vm_compute; discriminate].
Defined.

(** C3 at work: the second fetch times out; the record of the first page is
    written to the sink and the run returns no error. *)
Lemma C3_witness :
  let uc := NewResumeUseCase (paged examples.one_page_then_timeout)
              (Absent : FileState (list (list string))) in
  ∃ result rerr uc',
    ParseResumesByCriteria (HT := examples.csv_in_memory) 2 uc examples.criteria
    = Some (result, rerr, uc')
    ∧ Errors result
      = [Errorf "ошибка поиска на странице %d: %w" [ArgInt 1; ArgErr (ErrOther "timeout")]]
    ∧ rerr = None
    ∧ storageRepo uc'
      = Present [headers; record examples.no_format (enriched examples.alice)]
    ∧ requested (resumeRepo uc') = [0; 1].
Proof.
  intros uc.
  destruct (C3_fetch_failure_stops_pagination_and_still_flushes
              (HT := examples.csv_in_memory) uc examples.criteria
              [[examples.alice]]
              {| pages := examples.one_page_then_timeout; requested := [0] |} 1
              (ErrOther "timeout")
              {| pages := examples.one_page_then_timeout; requested := [0; 1] |} 2)
    as (result & rerr & uc' & Hrun & Herr & Hrepo & _ & Hflush & _ & _).
  { eapply serves_cons; [vm_compute; reflexivity | discriminate | apply serves_nil]. }
  { vm_compute. reflexivity. }
  { simpl. lia. }
  destruct Hflush as [Hstorage Hrerr]; [vm_compute; discriminate|].
  exists result, rerr, uc'.
  split; [exact Hrun|]. split; [exact Herr|].
  split; [rewrite Hrerr; vm_compute; reflexivity|].
  split; [rewrite Hstorage; vm_compute; reflexivity|].
  rewrite Hrepo. reflexivity.
Defined.

(** C10, at the input where it fails.  The sink cannot be created, so the
    flush of the one record kept fails: the run returns its result before
    [TotalFound] is assigned, and the result has [TotalFound = 0] while
    [ProcessedCount = 1]. *)
Theorem C10_TotalFound_is_zero_after_failed_flush :
  let uc := NewResumeUseCase (paged (serve [[examples.alice]]))
              (Denied : FileState (list (list string))) in
  ∃ result err uc',
    ParseResumesByCriteria (HT := examples.csv_in_memory) 2 uc examples.criteria
    = Some (result, Some err, uc')
    ∧ ProcessedCount result = 1
    ∧ SavedCount result = 1
    ∧ SkippedCount result = 0
    ∧ TotalFound result = 0
    ∧ TotalFound result ≠ ProcessedCount result.
Proof.
  intros uc. eexists _, _, _. split; [vm_compute; reflexivity|].
  vm_compute. repeat split; discriminate.
Qed.

(** ** Pagination against a paged source *)

Lemma PagedSource_serves criteria pg : ∀ (n : nat) start log,
  0 <= start → start + Z.of_nat n <= int_max →
  (∀ p, start <= p < start + Z.of_nat n → ∃ resumes, pg p = Ok resumes ∧ resumes ≠ []) →
  serves criteria {| pages := pg; requested := log |} start
    ((λ p, match pg p with Ok resumes => resumes | Err _ => [] end)
       <$> seqZ start (Z.of_nat n))
    {| pages := pg; requested := log ++ seqZ start (Z.of_nat n) |}
    (start + Z.of_nat n).
Proof.
  induction n as [|n IH]; intros start log Hstart Hmax Hpages.
  - simpl. rewrite app_nil_r, Z.add_0_r. constructor.
  - rewrite seqZ_cons by lia.
    replace (Z.pred (Z.of_nat (S n))) with (Z.of_nat n) by lia.
    destruct (Hpages start ltac:(lia)) as (resumes & Hpg & Hne).
    rewrite fmap_cons, Hpg.
    replace (start + Z.of_nat (S n)) with (Z.succ start + Z.of_nat n) by lia.
    replace (log ++ start :: seqZ (Z.succ start) (Z.of_nat n))
      with ((log ++ [start]) ++ seqZ (Z.succ start) (Z.of_nat n))
      by (by rewrite <- app_assoc).
    eapply serves_cons.
    + simpl. unfold PagedSource_SearchResumes. simpl. rewrite Hpg. reflexivity.
    + exact Hne.
    + rewrite int_incr_small by lia.
      apply IH; [lia | lia |]. intros p Hp. apply Hpages. lia.
Qed.

(** A source that never answers with an empty page or an error keeps the
    loop going: no amount of fuel makes it return. *)
Lemma paginate_never_returns criteria pg :
  (∀ p, ∃ resumes, pg p = Ok resumes ∧ resumes ≠ []) →
  ∀ fuel log page st,
    paginate fuel {| pages := pg; requested := log |} criteria page st = None.
Proof.
  intros Hpages fuel. induction fuel as [|fuel IH]; intros log page st; [done|].
  simpl. unfold PagedSource_SearchResumes. simpl.
  destruct (Hpages page) as (resumes & -> & Hne).
  destruct (len resumes =? 0) eqn:Hlen; [by apply len_zero in Hlen|].
  rewrite paginate_set_Page. apply IH.
Qed.

(** C7.  Against a source whose pages [0 .. n-1] are non-empty and whose
    page [n] is empty, the run returns; the source was asked for the pages
    [0, 1, ..., n], in this order and for nothing else; every record of the
    pages [0 .. n-1] is counted in [ProcessedCount]; no error is recorded.
    In particular two pages of 20 records followed by an empty page make
    exactly the three fetches of pages 0, 1 and 2, and [ProcessedCount] is
    40. *)
Theorem C7_pagination_from_zero_until_empty_page :
  (∀ T (HT : StorageRepository T) (storage : T) criteria pg (n : nat),
      Z.of_nat n <= int_max →
      (∀ p, 0 <= p < Z.of_nat n → ∃ resumes, pg p = Ok resumes ∧ resumes ≠ []) →
      pg (Z.of_nat n) = Ok [] →
      ∃ result rerr uc',
        ParseResumesByCriteria (S n) (NewResumeUseCase (paged pg) storage) criteria
        = Some (result, rerr, uc')
        ∧ requested (resumeRepo uc') = seqZ 0 (Z.of_nat n + 1)
        ∧ ProcessedCount result = int_wrap (len (concat (pages_upto pg n)))
        ∧ Errors result = [])
  ∧ (∀ T (HT : StorageRepository T) (storage : T) criteria p0 p1,
        length p0 = 20%nat → length p1 = 20%nat →
        ∃ result rerr uc',
          ParseResumesByCriteria 3 (NewResumeUseCase (paged (serve [p0; p1])) storage)
            criteria
          = Some (result, rerr, uc')
          ∧ requested (resumeRepo uc') = [0; 1; 2]
          ∧ ProcessedCount result = 40).
Proof.
  assert (∀ T (HT : StorageRepository T) (storage : T) criteria pg (n : nat),
      Z.of_nat n <= int_max →
      (∀ p, 0 <= p < Z.of_nat n → ∃ resumes, pg p = Ok resumes ∧ resumes ≠ []) →
      pg (Z.of_nat n) = Ok [] →
      ∃ result rerr uc',
        ParseResumesByCriteria (S n) (NewResumeUseCase (paged pg) storage) criteria
        = Some (result, rerr, uc')
        ∧ requested (resumeRepo uc') = seqZ 0 (Z.of_nat n + 1)
        ∧ ProcessedCount result = int_wrap (len (concat (pages_upto pg n)))
        ∧ Errors result = []) as Hgeneral.
  { intros T HT storage criteria pg n Hmax Hpages Hlast.
    set (uc := NewResumeUseCase (paged pg) storage).
    pose proof (PagedSource_serves criteria pg n 0 [] ltac:(lia) ltac:(lia)) as Hs.
    rewrite Z.add_0_l in Hs. specialize (Hs Hpages). fold (pages_upto pg n) in Hs.
    set (st := processPage (enterLoop (processed (loaded uc))) (concat (pages_upto pg n))).
    assert (paginate (S n) (resumeRepo (loaded uc)) criteria 0
              (enterLoop (processed (loaded uc)))
            = Some ({| pages := pg;
                       requested := ([] ++ seqZ 0 (Z.of_nat n)) ++ [Z.of_nat n] |}, st))
      as Hrun.
    { rewrite loaded_resumeRepo.
      eapply (paginate_run _ _ _ _ _ _ Hs (Ok [])).
      - simpl. unfold PagedSource_SearchResumes. simpl. by rewrite Hlast.
      - done.
      - unfold pages_upto. rewrite length_fmap, length_seqZ. lia. }
    pose proof (loop_inv_processPage _ (concat (pages_upto pg n)) _
                  (loop_inv_enter (processed (loaded uc)))) as Hinv.
    fold st in Hinv.
    assert (ProcessedCount (ls_result st)
            = int_wrap (len (concat (pages_upto pg n)))) as Hcount.
    { unfold st. rewrite (processPage_ProcessedCount _ _ 0); [f_equal; lia | done]. }
    assert (seqZ 0 (Z.of_nat n + 1) = ([] ++ seqZ 0 (Z.of_nat n)) ++ [Z.of_nat n])
      as Hseq.
    { replace (Z.of_nat n + 1) with (Z.of_nat n + Z.of_nat 1) by lia.
      rewrite seqZ_app by lia. simpl. f_equal. }
    rewrite ParseResumesByCriteria_unfold, Hrun.
    destruct (0 <? len (ls_allResumes st)).
    - destruct (SaveResumes _ _) as [[e|] storage'];
        eexists _, _, _; (split; [reflexivity|]); simpl;
        rewrite Hseq, Hcount, (inv_errors _ _ Hinv); done.
    - eexists _, _, _. split; [reflexivity|]. simpl.
      rewrite Hseq, Hcount, (inv_errors _ _ Hinv). done. }
  split; [exact Hgeneral|].
  intros T HT storage criteria p0 p1 Hp0 Hp1.
  destruct (Hgeneral T HT storage criteria (serve [p0; p1]) 2%nat)
    as (result & rerr & uc' & Hrun & Hreq & Hcount & _).
  - unfold int_max. lia.
  - intros p Hp. assert (p = 0 ∨ p = 1) as [-> | ->] by lia.
    + exists p0. split; [reflexivity|]. intros ->. discriminate.
    + exists p1. split; [reflexivity|]. intros ->. discriminate.
  - reflexivity.
  - exists result, rerr, uc'. split; [exact Hrun|]. split; [exact Hreq|].
    rewrite Hcount. unfold pages_upto, len. simpl.
    rewrite !length_app, Hp0, Hp1. reflexivity.
Qed.

(** The second part of C7 on two pages of twenty numbered records. *)
Lemma C7_witness :
  ∃ result rerr uc',
    ParseResumesByCriteria (HT := examples.csv_in_memory) 3
      (NewResumeUseCase
         (paged (serve [examples.numbered "a" 20; examples.numbered "b" 20]))
         Absent)
      examples.criteria
    = Some (result, rerr, uc')
    ∧ requested (resumeRepo uc') = [0; 1; 2]
    ∧ ProcessedCount result = 40.
Proof.
  apply (proj2 C7_pagination_from_zero_until_empty_page); reflexivity.
Defined.

(** The identifiers of the batch after the records [l]: those the batch held,
    then the identifiers of the valid records of [l] that the processed set
    did not mark, each at its first occurrence. *)
Lemma processPage_batch_ids l : ∀ st,
  ID <$> ls_allResumes (processPage st l)
  = (ID <$> ls_allResumes st)
    ++ first_occurrences
         (filter (λ id, isAlreadyProcessed (ls_processed st) id = false)
            (ID <$> filter (λ r, validateResume r = true) l)).
Proof.
  induction l as [|r l IH]; intros st.
  - simpl. by rewrite app_nil_r.
  - rewrite processPage_cons, IH.
    destruct (validateResume r) eqn:Hv.
    + rewrite (filter_cons_True (λ r, validateResume r = true)) by done.
      rewrite fmap_cons.
      destruct (isAlreadyProcessed (ls_processed st) (ID r)) eqn:Hdup.
      * destruct (processResume_duplicate st r Hdup) as (-> & -> & _).
        rewrite (filter_cons_False (λ id, isAlreadyProcessed _ id = false))
          by congruence.
        done.
      * destruct (processResume_fresh_valid st r Hdup Hv) as (-> & -> & _).
        rewrite (filter_cons_True (λ id, isAlreadyProcessed _ id = false)) by done.
        rewrite fmap_app, <- app_assoc. simpl. do 2 f_equal.
        rewrite filter_first_occurrences, list_filter_filter. f_equal.
        apply list_filter_iff. intros id. rewrite isAlreadyProcessed_mark.
        destruct (decide (ID r = id)) as [->|Hne]; split;
          [discriminate | tauto | by intros ? | tauto].
    + rewrite (filter_cons_False (λ r, validateResume r = true)) by congruence.
      by destruct (processResume_invalid st r Hv) as (-> & -> & _).
Qed.

(** ** Duplicates within a run *)

(** C5 (as amended).  When the source serves the pages [pgs] and then breaks
    the loop, the run of the loop returns and the records it met are those of
    [pgs], in order.  Of two records with the same identifier the later one
    is skipped (it leaves the batch, the processed set and [SavedCount] alone
    and is counted in [SkippedCount]) whenever the earlier one passes
    validation or the later one fails it; in particular a record that comes
    again unchanged is skipped.  Hence no identifier occurs twice in the batch
    handed to the flush.  A valid record whose identifier the processed set
    did not hold when the loop began, and whose earlier occurrences all
    failed validation, finds its identifier unmarked and is kept like a new
    one. *)
Theorem C5_occurrence_after_a_valid_one_is_skipped
    `{HR : ResumeRepository R} fuel (repo : R) criteria P0
    pgs repo_n page_n res repo' :
  serves criteria repo 0 pgs repo_n page_n →
  SearchResumes repo_n (set_Page criteria page_n) = (res, repo') →
  breaks res →
  (length pgs < fuel)%nat →
  ∃ st',
    paginate fuel repo criteria 0 (enterLoop P0) = Some (repo', st')
    ∧ ls_allResumes st' = ls_allResumes (processPage (enterLoop P0) (concat pgs))
    ∧ (∀ l1 r1 l2 r2 l3,
          concat pgs = l1 ++ r1 :: l2 ++ r2 :: l3 →
          ID r1 = ID r2 →
          validateResume r1 = true ∨ validateResume r2 = false →
          let st := processPage (enterLoop P0) (l1 ++ r1 :: l2) in
          skipped st (processResume st r2))
    ∧ (∀ l1 r l2 l3,
          concat pgs = l1 ++ r :: l2 ++ r :: l3 →
          let st := processPage (enterLoop P0) (l1 ++ r :: l2) in
          skipped st (processResume st r))
    ∧ NoDup (ID <$> ls_allResumes st')
    ∧ (∀ l1 r l2,
          concat pgs = l1 ++ r :: l2 →
          isAlreadyProcessed P0 (ID r) = false →
          (∀ r', r' ∈ l1 → ID r' = ID r → validateResume r' = false) →
          validateResume r = true →
          let st := processPage (enterLoop P0) l1 in
          isAlreadyProcessed (ls_processed st) (ID r) = false
          ∧ kept st r (processResume st r)).
Proof.
  intros Hs Hlast Hbr Hfuel.
  pose proof (paginate_run _ _ _ _ _ _ Hs res repo' (enterLoop P0) fuel
                Hlast Hbr Hfuel) as Hrun.
  eexists. split; [exact Hrun|].
  split; [by destruct res|].
  assert (∀ l1 r1 l2 r2,
             ID r1 = ID r2 →
             validateResume r1 = true ∨ validateResume r2 = false →
             let st := processPage (enterLoop P0) (l1 ++ r1 :: l2) in
             skipped st (processResume st r2)) as Hlater.
  { intros l1 r1 l2 r2 Hid [Hvalid|Hinvalid] st;
      [|by apply processResume_invalid].
    apply processResume_duplicate. rewrite <- Hid.
    destruct (processPage_seen (l1 ++ r1 :: l2) (enterLoop P0) r1) as [Hm|Hinv].
    - rewrite elem_of_app, elem_of_cons. tauto.
    - exact Hm.
    - congruence. }
  split; [intros l1 r1 l2 r2 l3 _; apply Hlater|].
  split.
  { intros l1 r l2 l3 _. apply Hlater; [done|].
    destruct (validateResume r); tauto. }
  split; [by apply paginate_loop_inv in Hrun as (_ & _ & _ & Hnodup)|].
  intros l1 r l2 _ Hnew Hearlier Hvalid st.
  assert (isAlreadyProcessed (ls_processed st) (ID r) = false) as Hunmarked.
  { destruct (isAlreadyProcessed (ls_processed st) (ID r)) eqn:Hm; [|done].
    pose proof (loop_inv_processPage P0 l1 _ (loop_inv_enter P0)) as Hinv.
    fold st in Hinv.
    apply (inv_origin _ _ Hinv) in Hm as [Hm|Hm]; [congruence|].
    unfold st in Hm. rewrite processPage_batch_ids in Hm. simpl in Hm.
    apply elem_of_first_occurrences, list_elem_of_filter in Hm as [_ Hm].
    apply list_elem_of_fmap in Hm as (r' & Hid & Hr').
    apply list_elem_of_filter in Hr' as [Hvalid' Hr'].
    rewrite (Hearlier r' Hr' (eq_sym Hid)) in Hvalid'. discriminate. }
  split; [exact Hunmarked|].
  by apply processResume_fresh_valid.
Qed.

(** C5 on a run: [alice] comes on the first page and again on the second;
    her second occurrence is skipped. *)
Lemma C5_witness :
  let st := processPage (enterLoop ∅) [examples.alice; examples.bob] in
  skipped st (processResume st examples.alice).
Proof.
  set (pg := serve [[examples.alice; examples.bob]; [examples.alice]]).
  destruct (C5_occurrence_after_a_valid_one_is_skipped 3
              (paged pg) examples.criteria ∅
              [[examples.alice; examples.bob]; [examples.alice]]
              {| pages := pg; requested := [0; 1] |} 2 (Ok [])
              {| pages := pg; requested := [0; 1; 2] |})
    as (st' & _ & _ & Hskip & _).
  - eapply serves_cons; [reflexivity | discriminate |].
    eapply serves_cons; [reflexivity | discriminate |].
    apply serves_nil.
  - reflexivity.
  - reflexivity.
  - simpl. lia.
  - apply (Hskip [] examples.alice [examples.bob] examples.alice []);
      [reflexivity | reflexivity | left; reflexivity].
Defined.

(** C5 as the specification words it fails: the first record with identifier
    [x] fails validation, so the identifier is not marked, and the later
    record with the same identifier is kept, not skipped.  The run counts one
    record saved and one skipped, and the record saved is the later one. *)
Lemma C5_counterexample :
  let st := processPage (enterLoop ∅) [examples.draft] in
  ID examples.draft = ID examples.completed
  ∧ kept st examples.completed (processResume st examples.completed)
  ∧ ¬ skipped st (processResume st examples.completed)
  ∧ ∃ result uc',
      ParseResumesByCriteria (HT := examples.csv_in_memory) 3
        (NewResumeUseCase
           (paged (serve [[examples.draft]; [examples.completed]])) Absent)
        examples.criteria
      = Some (result, None, uc')
      ∧ ProcessedCount result = 2
      ∧ SavedCount result = 1
      ∧ SkippedCount result = 1
      ∧ storageRepo uc'
        = Present [headers; record examples.no_format (enriched examples.completed)].
Proof.
  intros st.
  assert (kept st examples.completed (processResume st examples.completed)) as Hk.
  { apply processResume_fresh_valid; vm_compute; reflexivity. }
  split; [reflexivity|]. split; [exact Hk|].
  split; [intros Hs; by apply kept_not_skipped in Hk|].
  eexists _, _. split; [vm_compute; reflexivity|].
  vm_compute. repeat split.
Qed.

(** ** Running twice *)

(** Records that are all marked already or invalid are all skipped. *)
Lemma processPage_all_skipped l : ∀ st,
  (∀ r, r ∈ l →
        isAlreadyProcessed (ls_processed st) (ID r) = true ∨ validateResume r = false) →
  ls_allResumes (processPage st l) = ls_allResumes st
  ∧ ls_processed (processPage st l) = ls_processed st
  ∧ SavedCount (ls_result (processPage st l)) = SavedCount (ls_result st)
  ∧ (SkippedCount (ls_result st) = ProcessedCount (ls_result st) →
     SkippedCount (ls_result (processPage st l))
     = ProcessedCount (ls_result (processPage st l))).
Proof.
  induction l as [|r l IH]; intros st Hknown; [done|].
  rewrite processPage_cons.
  assert (skipped st (processResume st r)) as (Ha & Hp & Hsv & Hsk).
  { destruct (Hknown r) as [Hdup|Hinv]; [apply elem_of_cons; tauto | |].
    - by apply processResume_duplicate.
    - by apply processResume_invalid. }
  destruct (processResume_result st r) as (Hpc & _).
  destruct (IH (processResume st r)) as (Ha' & Hp' & Hsv' & Hsk').
  { intros r' Hr'. rewrite Hp. apply Hknown, elem_of_cons. tauto. }
  rewrite Ha', Hp', Hsv', Ha, Hp, Hsv.
  split; [done|]. split; [done|]. split; [done|].
  intros Heq. apply Hsk'. by rewrite Hsk, Hpc, Heq.
Qed.

Section rerun.
Context `{HR : ResumeRepository R} `{HT : StorageRepository T}.

(** A run whose processed set, once loaded, already knows every valid
    record the source serves saves nothing, skips everything it counts,
    does not call [SaveResumes] and returns no error. *)
Lemma run_with_all_known fuel criteria (uc : ResumeUseCase R T)
    pgs repo_n page_n res repo' :
  serves criteria (resumeRepo (loaded uc)) 0 pgs repo_n page_n →
  SearchResumes repo_n (set_Page criteria page_n) = (res, repo') →
  breaks res →
  (length pgs < fuel)%nat →
  (∀ r, r ∈ concat pgs →
        isAlreadyProcessed (processed (loaded uc)) (ID r) = true
        ∨ validateResume r = false) →
  ∃ result uc',
    ParseResumesByCriteria fuel uc criteria = Some (result, None, uc')
    ∧ SavedCount result = 0
    ∧ SkippedCount result = ProcessedCount result
    ∧ ProcessedCount result = int_wrap (len (concat pgs))
    ∧ storageRepo uc' = storageRepo (loaded uc).
Proof.
  intros Hs Hlast Hbr Hfuel Hknown.
  pose proof (paginate_run _ _ _ _ _ _ Hs res repo'
                (enterLoop (processed (loaded uc))) fuel Hlast Hbr Hfuel) as Hrun.
  destruct (processPage_all_skipped (concat pgs) (enterLoop (processed (loaded uc))))
    as (Ha & _ & Hsv & Hsk); [exact Hknown|].
  specialize (Hsk eq_refl).
  pose proof (processPage_ProcessedCount (concat pgs)
                (enterLoop (processed (loaded uc))) 0 eq_refl) as Hpc.
  destruct (finish_fields (processPage (enterLoop (processed (loaded uc))) (concat pgs))
              page_n res) as (_ & Hfa & Hfp & Hfs & Hfk & _).
  rewrite ParseResumesByCriteria_unfold, Hrun, Hfa, Ha. simpl.
  eexists _, _. split; [reflexivity|]. simpl.
  rewrite Hfs, Hfk, Hfp, Hsv, Hsk, Hpc. done.
Qed.
End rerun.

(** Two runs, each with a use case of its own as the application builds it,
    against the same paged source and the same sink.  If the sink lists no
    identifier before the first run, if the storage adapter lists after a
    successful [SaveResumes] the identifier of every record of the batch, and
    if the first run returns no error, then the second run returns no error,
    saves nothing and skips every record it counts. *)
Lemma rerun_after_clean_start `{HT : StorageRepository T}
    (storage0 : T) pg fuel criteria res1 uc1 :
  (∀ ids, fst (GetSavedResumeIDs storage0) = Ok ids → ids = []) →
  (∀ storage batch storage',
      SaveResumes storage batch = (None, storage') →
      ∃ ids, fst (GetSavedResumeIDs storage') = Ok ids ∧ ∀ r, r ∈ batch → ID r ∈ ids) →
  ParseResumesByCriteria fuel (NewResumeUseCase (paged pg) storage0) criteria
  = Some (res1, None, uc1) →
  ∃ res2 uc2,
    ParseResumesByCriteria fuel (NewResumeUseCase (paged pg) (storageRepo uc1)) criteria
    = Some (res2, None, uc2)
    ∧ SavedCount res2 = 0
    ∧ SkippedCount res2 = ProcessedCount res2
    ∧ ProcessedCount res2 = ProcessedCount res1.
Proof.
  intros Hclean Hlists Hrun1.
  set (uc0 := NewResumeUseCase (paged pg) storage0) in *.
  set (P1 := processed (loaded uc0)).
  assert (∀ id, isAlreadyProcessed P1 id = false) as HP1.
  { intros id. destruct (isAlreadyProcessed P1 id) eqn:E; [|done].
    apply loaded_processed in E as [E|(ids & Hids & Hin)].
    - simpl in E. by rewrite isAlreadyProcessed_empty in E.
    - apply Hclean in Hids as ->. by apply elem_of_nil in Hin. }
  rewrite ParseResumesByCriteria_unfold in Hrun1. fold P1 in Hrun1.
  destruct (paginate fuel (resumeRepo (loaded uc0)) criteria 0 (enterLoop P1))
    as [[repo1 st1]|] eqn:Hloop; [|discriminate].
  apply paginate_inv in Hloop
    as (pgs & repo_n & page_n & res & Hs & Hlast & Hbr & Hfuel & ->).
  rewrite loaded_resumeRepo in Hs. simpl in Hs.
  set (st := processPage (enterLoop P1) (concat pgs)) in *.
  destruct (finish_fields st page_n res) as (_ & Hfa & Hfp & _).
  pose proof (loop_inv_processPage P1 (concat pgs) _ (loop_inv_enter P1)) as Hinv.
  fold st in Hinv.
  rewrite Hfa in Hrun1.
  (* what the first run left in the sink lists every identifier it kept *)
  assert (∀ r, r ∈ ls_allResumes st →
               ∃ ids, fst (GetSavedResumeIDs (storageRepo uc1)) = Ok ids ∧ ID r ∈ ids)
    as Hsink.
  { intros r Hr.
    destruct (0 <? len (ls_allResumes st)) eqn:Hlen.
    - destruct (SaveResumes (storageRepo (loaded uc0)) (ls_allResumes st))
        as [[err|] storage'] eqn:Hsave; [discriminate|].
      simpl in Hrun1. injection Hrun1 as <- <-. simpl.
      destruct (Hlists _ _ _ Hsave) as (ids & Hids & Hin).
      exists ids. split; [exact Hids | by apply Hin].
    - destruct (ls_allResumes st) eqn:E; [by apply elem_of_nil in Hr|].
      by rewrite (proj2 (len_pos (r0 :: l))) in Hlen. }
  assert (ProcessedCount res1 = int_wrap (len (concat pgs))) as Hpc1.
  { pose proof (processPage_ProcessedCount (concat pgs) (enterLoop P1) 0 eq_refl) as Hpc.
    fold st in Hpc.
    destruct (0 <? len (ls_allResumes st)).
    - destruct (SaveResumes _ _) as [[err|] storage']; [discriminate|].
      simpl in Hrun1. injection Hrun1 as <- _. simpl. by rewrite Hfp, Hpc.
    - simpl in Hrun1. injection Hrun1 as <- _. simpl. by rewrite Hfp, Hpc. }
  set (uc2 := NewResumeUseCase (paged pg) (storageRepo uc1)).
  destruct (run_with_all_known fuel criteria uc2 pgs repo_n page_n res repo1)
    as (res2 & uc2' & Hrun2 & Hsaved & Hskipped & Hpc2 & _).
  - by rewrite loaded_resumeRepo.
  - exact Hlast.
  - exact Hbr.
  - exact Hfuel.
  - intros r Hr.
    destruct (processPage_seen (concat pgs) (enterLoop P1) r Hr) as [Hm|Hinvalid];
      [left | by right].
    fold st in Hm.
    apply (inv_origin _ _ Hinv) in Hm as [Hm|Hm]; [by rewrite HP1 in Hm|].
    apply list_elem_of_fmap in Hm as (r' & Hid & Hr').
    destruct (Hsink r' Hr') as (ids & Hids & Hin).
    apply loaded_processed. right. exists ids. rewrite Hid. done.
  - exists res2, uc2'. rewrite Hpc1. done.
Qed.

(** ** The storage adapters *)

Example joinStrings_puts_the_separator_between :
  joinStrings ["Go"; "Docker"; "SQL"]%string "; " = "Go; Docker; SQL"%string
  ∧ joinStrings [] "; " = ""%string.
Proof. split; reflexivity. Qed.

Example formatExperience_one_job :
  formatExperience
    [{| Company := "Tech Corp"; Position := "Engineer"; StartDate := "2020-01";
        EndDate := "2023-12"; Description := ""; Industry := "" |}]
  = "Engineer at Tech Corp (2020-01 - 2023-12)"%string.
Proof. reflexivity. Qed.

Lemma foldl_snoc_fmap {A B} (f : A → B) (l : list A) : ∀ init,
  foldl (λ acc x, acc ++ [f x]) init l = init ++ (f <$> l).
Proof.
  induction l as [|x l IH]; intros init; simpl.
  - by rewrite app_nil_r.
  - rewrite IH, <- app_assoc. done.
Qed.

Lemma first_columns (records : list (list string)) : ∀ init,
  foldl (λ ids record, match record with
                       | id :: _ => ids ++ [id]
                       | [] => ids
                       end) init records
  = init ++ omap head records.
Proof.
  induction records as [|record records IH]; intros init; simpl.
  - by rewrite app_nil_r.
  - rewrite IH. destruct record as [|id fields]; simpl; [done|].
    by rewrite <- app_assoc.
Qed.




Section CSVStorage_facts.
Context (Bytes : Type) (csv_write : list (list string) → Bytes)
        (csv_read : Bytes → result (list (list string)))
        (Format : Time → string → string).

(** What a successful save leaves in the file. *)
Lemma CSVStorage_SaveResumes_ok file batch file' :
  CSVStorage_SaveResumes Bytes csv_write Format file batch = (None, file') →
  file' = Present (csv_write (headers :: (record Format <$> batch))).
Proof.
  unfold CSVStorage_SaveResumes.
  destruct (os_Create file); [discriminate|].
  intros [= <-]. by rewrite foldl_snoc_fmap.
Qed.

(** The header is dropped and the first column of the other records is
    returned. *)
Lemma CSVStorage_GetSavedResumeIDs_Present data header records :
  csv_read data = Ok (header :: records) →
  CSVStorage_GetSavedResumeIDs Bytes csv_read (Present data)
  = (Ok (omap head records), Present data).
Proof.
  intros Hread. unfold CSVStorage_GetSavedResumeIDs. simpl.
  by rewrite Hread, first_columns.
Qed.

Lemma first_column_of_records (batch : list Resume) :
  omap head (record Format <$> batch) = ID <$> batch.
Proof. induction batch as [|r batch IH]; simpl; [done | f_equal; exact IH]. Qed.

Lemma CSVStorage_lists_saved file batch file' :
  csv_read (csv_write (headers :: (record Format <$> batch)))
  = Ok (headers :: (record Format <$> batch)) →
  CSVStorage_SaveResumes Bytes csv_write Format file batch = (None, file') →
  CSVStorage_GetSavedResumeIDs Bytes csv_read file' = (Ok (ID <$> batch), file').
Proof.
  intros Hround Hsave. apply CSVStorage_SaveResumes_ok in Hsave as ->.
  erewrite CSVStorage_GetSavedResumeIDs_Present by exact Hround.
  by rewrite first_column_of_records.
Qed.
End CSVStorage_facts.

Section FileStorage_facts.
Context (Bytes : Type) (empty_file : Bytes)
        (json_encode : list Resume → result Bytes)
        (json_decode : Bytes → result (list Resume)).

Lemma FileStorage_lists_saved file batch file' :
  (∀ data, json_encode batch = Ok data →
           ∃ resumes, json_decode data = Ok resumes ∧ ID <$> resumes = ID <$> batch) →
  FileStorage_SaveResumes Bytes empty_file json_encode file batch = (None, file') →
  FileStorage_GetSavedResumeIDs Bytes json_decode file' = (Ok (ID <$> batch), file').
Proof.
  intros Hround. unfold FileStorage_SaveResumes.
  destruct (os_Create file); [discriminate|].
  destruct (json_encode batch) as [data|err]; [|discriminate].
  intros [= <-]. destruct (Hround data eq_refl) as (resumes & Hdec & Hids).
  unfold FileStorage_GetSavedResumeIDs. simpl. rewrite Hdec. by rewrite Hids.
Qed.
End FileStorage_facts.




(** What a paged source serves does not depend on what it was asked
    before. *)
Lemma PagedSource_serves_any_log criteria pgs : ∀ src page src' page',
  serves criteria src page pgs src' page' →
  pages src' = pages src
  ∧ ∀ log, ∃ log',
      serves criteria {| pages := pages src; requested := log |} page pgs
        {| pages := pages src; requested := log' |} page'.
Proof.
  induction 1 as [src page | src page resumes src1 pgs src2 page2 Hcall Hne _ IH].
  - split; [done|]. intros log. exists log. constructor.
  - simpl in Hcall. unfold PagedSource_SearchResumes in Hcall.
    injection Hcall as Hpg <-. simpl in IH. destruct IH as [Hpages IH].
    split; [exact Hpages|]. intros log.
    destruct (IH (log ++ [page])) as (log' & Hs). exists log'.
    eapply serves_cons; [| exact Hne | exact Hs].
    simpl. unfold PagedSource_SearchResumes. simpl. by rewrite Hpg.
Qed.

(** With one use case object for both runs the processed set of the first
    run is still there: the second run saves nothing whatever the storage
    adapter and whatever the first run returned. *)
Lemma rerun_same_use_case `{HT : StorageRepository T}
    fuel criteria (uc : ResumeUseCase PagedSource T) res1 rerr1 uc1 :
  ParseResumesByCriteria fuel uc criteria = Some (res1, rerr1, uc1) →
  ∃ res2 uc2,
    ParseResumesByCriteria fuel uc1 criteria = Some (res2, None, uc2)
    ∧ SavedCount res2 = 0
    ∧ SkippedCount res2 = ProcessedCount res2
    ∧ ProcessedCount res2 = ProcessedCount res1.
Proof.
  intros Hrun1. rewrite ParseResumesByCriteria_unfold in Hrun1.
  set (P1 := processed (loaded uc)) in *.
  destruct (paginate fuel (resumeRepo (loaded uc)) criteria 0 (enterLoop P1))
    as [[repo1 st1]|] eqn:Hloop; [|discriminate].
  apply paginate_inv in Hloop
    as (pgs & repo_n & page_n & res & Hs & Hlast & Hbr & Hfuel & ->).
  set (st := processPage (enterLoop P1) (concat pgs)) in *.
  destruct (finish_fields st page_n res) as (Hfm & _ & Hfp & _).
  assert (processed uc1 = ls_processed st
          ∧ ProcessedCount res1 = ProcessedCount (ls_result st)
          ∧ resumeRepo uc1 = repo1) as (Hmarks & Hpc1 & Hrepo1).
  { destruct (0 <? len _).
    - destruct (SaveResumes _ _) as [[err|] storage'];
        simpl in Hrun1; injection Hrun1 as <- _ <-; simpl; by rewrite Hfm, Hfp.
    - simpl in Hrun1. injection Hrun1 as <- _ <-. simpl. by rewrite Hfm, Hfp. }
  destruct (PagedSource_serves_any_log _ _ _ _ _ _ Hs) as (Hpages_n & Hany).
  simpl in Hlast. unfold PagedSource_SearchResumes in Hlast.
  injection Hlast as Hres Hrepo.
  assert (pages repo1 = pages (resumeRepo (loaded uc))) as Hpages1.
  { rewrite <- Hrepo. simpl. exact Hpages_n. }
  destruct (Hany (requested repo1)) as (log' & Hs2).
  destruct (run_with_all_known fuel criteria uc1 pgs
              {| pages := pages (resumeRepo (loaded uc)); requested := log' |}
              page_n res
              {| pages := pages (resumeRepo (loaded uc));
                 requested := log' ++ [page_n] |})
    as (res2 & uc2 & Hrun2 & Hsaved & Hskipped & Hpc2 & _).
  - rewrite loaded_resumeRepo, Hrepo1.
    destruct repo1 as [pg1 log1]. simpl in *. by rewrite Hpages1.
  - simpl. unfold PagedSource_SearchResumes. simpl.
    by rewrite <- Hpages_n, Hres.
  - exact Hbr.
  - exact Hfuel.
  - intros r Hr.
    destruct (processPage_seen (concat pgs) (enterLoop P1) r Hr) as [Hm|Hinvalid];
      [left | by right].
    apply loaded_processed. left. by rewrite Hmarks.
  - exists res2, uc2.
    split; [exact Hrun2|]. split; [exact Hsaved|]. split; [exact Hskipped|].
    rewrite Hpc1, Hpc2. unfold st.
    by rewrite (processPage_ProcessedCount (concat pgs) (enterLoop P1) 0 eq_refl).
Qed.

(** The storage of a use case once the saved identifiers were listed. *)
Lemma loaded_storageRepo `{HT : StorageRepository T} {R} (uc : ResumeUseCase R T) :
  storageRepo (loaded uc) = snd (GetSavedResumeIDs (storageRepo uc)).
Proof.
  unfold loaded, loadProcessedResumes.
  by destruct (GetSavedResumeIDs (storageRepo uc)) as [[ids|err] storage].
Qed.

(** The counts of a run that was served the pages [pgs]. *)
Lemma run_result_counts `{HR : ResumeRepository R} `{HT : StorageRepository T}
    fuel (uc : ResumeUseCase R T) criteria pgs repo_n page_n res repo'
    result rerr uc' :
  serves criteria (resumeRepo (loaded uc)) 0 pgs repo_n page_n →
  SearchResumes repo_n (set_Page criteria page_n) = (res, repo') →
  breaks res →
  (length pgs < fuel)%nat →
  ParseResumesByCriteria fuel uc criteria = Some (result, rerr, uc') →
  ProcessedCount result = int_wrap (len (concat pgs))
  ∧ SavedCount result
    = int_wrap (len (ls_allResumes
                       (processPage (enterLoop (processed (loaded uc))) (concat pgs)))).
Proof.
  intros Hs Hlast Hbr Hfuel Hrun.
  pose proof (paginate_run _ _ _ _ _ _ Hs res repo'
                (enterLoop (processed (loaded uc))) fuel Hlast Hbr Hfuel) as Hloop.
  set (st := processPage (enterLoop (processed (loaded uc))) (concat pgs)) in *.
  pose proof (processPage_ProcessedCount (concat pgs)
                (enterLoop (processed (loaded uc))) 0 eq_refl) as Hpc.
  fold st in Hpc. rewrite Z.add_0_l in Hpc.
  pose proof (loop_inv_processPage _ (concat pgs) _
                (loop_inv_enter (processed (loaded uc)))) as Hinv.
  fold st in Hinv.
  destruct (finish_fields st page_n res) as (_ & Hfa & Hfp & Hfs & _).
  rewrite ParseResumesByCriteria_unfold, Hloop, Hfa in Hrun.
  rewrite <- Hpc, <- (inv_saved _ _ Hinv), <- Hfp, <- Hfs.
  destruct (0 <? len (ls_allResumes st)).
  - destruct (SaveResumes (storageRepo (loaded uc)) (ls_allResumes st))
      as [[err|] storage]; by injection Hrun as <- _ _.
  - by injection Hrun as <- _ _.
Qed.

(** Listing the saved identifiers leaves the file alone. *)
Lemma FileStorage_GetSavedResumeIDs_snd Bytes json_decode file :
  snd (FileStorage_GetSavedResumeIDs Bytes json_decode file) = file.
Proof.
  unfold FileStorage_GetSavedResumeIDs.
  destruct (os_Open file) as [data|err];
    [by destruct (json_decode data) | by destruct (IsNotExist err)].
Qed.

Lemma CSVStorage_GetSavedResumeIDs_snd Bytes csv_read file :
  snd (CSVStorage_GetSavedResumeIDs Bytes csv_read file) = file.
Proof.
  unfold CSVStorage_GetSavedResumeIDs.
  destruct (os_Open file) as [data|err]; [|by destruct (IsNotExist err)].
  by destruct (csv_read data) as [[|header records]|err].
Qed.

(** Two runs, each with a use case of its own, against the same paged
    source and the same sink, through an adapter whose listing leaves the
    sink alone and which, once it has saved the batch of the first run,
    lists the identifiers of that batch.  The first run returns no error.
    Then the second run returns, counts as many records as the first, and
    saves nothing if the first run kept nothing or if no valid record of
    the source has an identifier that the sink listed before the first run;
    if the first run kept something and some valid record has such an
    identifier, the second run saves a record. *)
Lemma rerun_fresh_use_case `{HT : StorageRepository T}
    (storage0 : T) pg fuel criteria pgs src_n page_n res src' res1 uc1 :
  let uc0 := NewResumeUseCase (paged pg) storage0 in
  let batch1 :=
    ls_allResumes (processPage (enterLoop (processed (loaded uc0))) (concat pgs)) in
  (∀ storage : T, snd (GetSavedResumeIDs storage) = storage) →
  serves criteria (paged pg) 0 pgs src_n page_n →
  SearchResumes src_n (set_Page criteria page_n) = (res, src') →
  breaks res →
  (length pgs < fuel)%nat →
  ParseResumesByCriteria fuel uc0 criteria = Some (res1, None, uc1) →
  (∀ storage',
      SaveResumes (storageRepo (loaded uc0)) batch1 = (None, storage') →
      fst (GetSavedResumeIDs storage') = Ok (ID <$> batch1)) →
  ∃ res2 rerr2 uc2,
    ParseResumesByCriteria fuel (NewResumeUseCase (paged pg) (storageRepo uc1)) criteria
    = Some (res2, rerr2, uc2)
    ∧ ProcessedCount res2 = ProcessedCount res1
    ∧ (batch1 = []
       ∨ (∀ ids0 r,
             fst (GetSavedResumeIDs storage0) = Ok ids0 →
             r ∈ concat pgs → validateResume r = true → ID r ∉ ids0) →
       rerr2 = None ∧ SavedCount res2 = 0 ∧ SkippedCount res2 = ProcessedCount res2)
    ∧ (batch1 ≠ [] →
       (∃ ids0 r,
           fst (GetSavedResumeIDs storage0) = Ok ids0
           ∧ r ∈ concat pgs ∧ validateResume r = true ∧ ID r ∈ ids0) →
       len (concat pgs) <= int_max →
       0 < SavedCount res2).
Proof.
  intros uc0 batch1 Hreadonly Hs Hlast Hbr Hfuel Hrun1 Hlists.
  set (P1 := processed (loaded uc0)) in *.
  set (st1 := processPage (enterLoop P1) (concat pgs)) in *.
  assert (serves criteria (resumeRepo (loaded uc0)) 0 pgs src_n page_n) as Hs1.
  { by rewrite loaded_resumeRepo. }
  (* what the sink listed before the first run is what [P1] marks *)
  assert (∀ id, isAlreadyProcessed P1 id = true
                ↔ ∃ ids0, fst (GetSavedResumeIDs storage0) = Ok ids0 ∧ id ∈ ids0)
    as HP1.
  { intros id. unfold P1. rewrite loaded_processed. simpl.
    rewrite isAlreadyProcessed_empty. split; [intros [?|?]; [done|done] | tauto]. }
  (* the first run *)
  pose proof (run_result_counts _ _ _ _ _ _ _ _ _ _ _ Hs1 Hlast Hbr Hfuel Hrun1)
    as [Hpc1 _].
  pose proof (paginate_run _ _ _ _ _ _ Hs1 res src' (enterLoop P1) fuel
                Hlast Hbr Hfuel) as Hloop1.
  fold st1 in Hloop1.
  destruct (finish_fields st1 page_n res) as (_ & Hfa & _).
  pose proof Hrun1 as Hsink.
  rewrite ParseResumesByCriteria_unfold in Hsink. fold P1 in Hsink.
  rewrite Hloop1, Hfa in Hsink. fold batch1 in Hsink.
  assert ((batch1 = [] → storageRepo uc1 = storage0)
          ∧ (batch1 ≠ [] →
             fst (GetSavedResumeIDs (storageRepo uc1)) = Ok (ID <$> batch1)))
    as [Hsame Hlisted].
  { destruct (0 <? len batch1) eqn:Hlen.
    - apply len_pos in Hlen.
      destruct (SaveResumes (storageRepo (loaded uc0)) batch1)
        as [[err|] storage'] eqn:Hsave; [discriminate|].
      injection Hsink as _ <-. simpl.
      split; [done|]. intros _. by apply Hlists.
    - assert (batch1 = []) as Hnil.
      { destruct batch1 as [|r l] eqn:E; [done|].
        by rewrite (proj2 (len_pos (r :: l))) in Hlen. }
      injection Hsink as _ <-. simpl.
      split; [|done]. intros _.
      rewrite loaded_storageRepo. simpl. apply Hreadonly. }
  (* the second run *)
  set (uc2_0 := NewResumeUseCase (paged pg) (storageRepo uc1)).
  set (P2 := processed (loaded uc2_0)).
  assert (serves criteria (resumeRepo (loaded uc2_0)) 0 pgs src_n page_n) as Hs2.
  { by rewrite loaded_resumeRepo. }
  assert (∀ id, isAlreadyProcessed P2 id = true
                ↔ ∃ ids, fst (GetSavedResumeIDs (storageRepo uc1)) = Ok ids ∧ id ∈ ids)
    as HP2.
  { intros id. unfold P2. rewrite loaded_processed. simpl.
    rewrite isAlreadyProcessed_empty. split; [intros [?|?]; [done|done] | tauto]. }
  destruct (ParseResumesByCriteria_returns fuel uc2_0 criteria pgs src_n page_n res src'
              Hs2 Hlast Hbr Hfuel) as (res2 & rerr2 & uc2 & Hrun2 & _).
  pose proof (run_result_counts _ _ _ _ _ _ _ _ _ _ _ Hs2 Hlast Hbr Hfuel Hrun2)
    as [Hpc2 Hsaved2].
  fold P2 in Hsaved2.
  exists res2, rerr2, uc2.
  split; [exact Hrun2|]. split; [by rewrite Hpc1, Hpc2|].
  pose proof (loop_inv_processPage P1 (concat pgs) _ (loop_inv_enter P1)) as Hinv1.
  fold st1 in Hinv1.
  split.
  - intros Hcond.
    destruct (run_with_all_known fuel criteria uc2_0 pgs src_n page_n res src'
                Hs2 Hlast Hbr Hfuel)
      as (res2' & uc2' & Hrun2' & Hsaved & Hskipped & _).
    { intros r Hr. fold P2.
      destruct (validateResume r) eqn:Hvalid; [left | by right].
      destruct (processPage_seen (concat pgs) (enterLoop P1) r Hr) as [Hm|Hinvalid];
        [|congruence].
      fold st1 in Hm.
      apply (inv_origin _ _ Hinv1) in Hm as [Hm|Hm].
      - apply HP1 in Hm as (ids0 & Hids0 & Hin).
        destruct Hcond as [Hnil|Hnew].
        + apply HP2. exists ids0. by rewrite (Hsame Hnil).
        + by destruct (Hnew ids0 r Hids0 Hr Hvalid).
      - fold batch1 in Hm.
        assert (batch1 ≠ []) as Hne.
        { intros Hnil. rewrite Hnil in Hm. by apply elem_of_nil in Hm. }
        apply HP2. exists (ID <$> batch1). split; [by apply Hlisted | exact Hm]. }
    rewrite Hrun2 in Hrun2'. by injection Hrun2' as -> -> _.
  - intros Hne (ids0 & r & Hids0 & Hr & Hvalid & Hin) Hsize.
    set (batch2 := ls_allResumes (processPage (enterLoop P2) (concat pgs))) in *.
    pose proof (processPage_batch_ids (concat pgs) (enterLoop P2)) as Hids2.
    pose proof (processPage_batch_ids (concat pgs) (enterLoop P1)) as Hids1.
    simpl in Hids1, Hids2. fold batch2 in Hids2. fold st1 batch1 in Hids1.
    assert (isAlreadyProcessed P2 (ID r) = false) as Hnew2.
    { destruct (isAlreadyProcessed P2 (ID r)) eqn:Hm; [|done].
      apply HP2 in Hm as (ids & Hids & Hin').
      rewrite (Hlisted Hne) in Hids. injection Hids as <-.
      rewrite Hids1 in Hin'.
      apply elem_of_first_occurrences, list_elem_of_filter in Hin' as [Hnew1 _].
      assert (isAlreadyProcessed P1 (ID r) = true) as Hm1.
      { apply HP1. by exists ids0. }
      congruence. }
    assert (ID r ∈ ID <$> batch2) as Hkept.
    { rewrite Hids2. apply elem_of_first_occurrences, list_elem_of_filter.
      split; [exact Hnew2|].
      apply list_elem_of_fmap. exists r. split; [done|].
      by apply list_elem_of_filter. }
    assert (length batch2 ≤ length (concat pgs))%nat as Hlength.
    { rewrite <- (length_fmap ID batch2), Hids2.
      etrans; [apply sublist_length, sublist_first_occurrences|].
      etrans; [apply sublist_length, sublist_filter|].
      rewrite length_fmap. apply sublist_length, sublist_filter. }
    assert (0 < len batch2) as Hpos.
    { unfold len. destruct batch2; [by apply elem_of_nil in Hkept | simpl; lia]. }
    rewrite Hsaved2, int_wrap_small; [exact Hpos|].
    unfold in_range, int_min, len in *. lia.
Qed.

(** ** Running twice against the JSON and the CSV adapter *)

(** C1 (as amended).  Two runs with the same criteria against a source that
    answers the same both times: it serves the pages [pgs] and then breaks
    the loop.  When each run has a use case of its own, as the application
    builds it, and the two share one sink file through the JSON adapter or
    through the CSV adapter, whatever the file holds before the first run:
    if the first run returns no error and the encoding package reads back
    the batch the first run wrote, then the second run returns and counts
    as many records as the first; it returns no error, has [SavedCount = 0]
    and [SkippedCount = ProcessedCount] if the first run kept no record or
    if no valid record of the source has an identifier that the sink listed
    before the first run; and it saves a record if the first run kept one
    and some valid record of the source has an identifier that the sink
    listed before the first run.  When the second run is a second call on
    the use case object of the first, it returns no error, has
    [SavedCount = 0] and [SkippedCount = ProcessedCount] whatever the
    storage adapter and whatever the first call returned. *)
Theorem C1_second_run_saves_nothing :
  (∀ Bytes (empty_file : Bytes) json_encode json_decode
     file0 pg fuel criteria pgs src_n page_n res src' res1 uc1,
      let uc0 := NewResumeUseCase (paged pg) file0 in
      let batch1 :=
        ls_allResumes
          (processPage
             (enterLoop
                (processed
                   (loaded (HT := FileStorage Bytes empty_file json_encode json_decode)
                      uc0)))
             (concat pgs)) in
      serves criteria (paged pg) 0 pgs src_n page_n →
      SearchResumes src_n (set_Page criteria page_n) = (res, src') →
      breaks res →
      (length pgs < fuel)%nat →
      ParseResumesByCriteria
        (HT := FileStorage Bytes empty_file json_encode json_decode)
        fuel uc0 criteria
      = Some (res1, None, uc1) →
      (∀ data, json_encode batch1 = Ok data →
               ∃ resumes, json_decode data = Ok resumes
                          ∧ ID <$> resumes = ID <$> batch1) →
      ∃ res2 rerr2 uc2,
        ParseResumesByCriteria
          (HT := FileStorage Bytes empty_file json_encode json_decode)
          fuel (NewResumeUseCase (paged pg) (storageRepo uc1)) criteria
        = Some (res2, rerr2, uc2)
        ∧ ProcessedCount res2 = ProcessedCount res1
        ∧ (batch1 = []
           ∨ (∀ ids0 r,
                 fst (FileStorage_GetSavedResumeIDs Bytes json_decode file0) = Ok ids0 →
                 r ∈ concat pgs → validateResume r = true → ID r ∉ ids0) →
           rerr2 = None ∧ SavedCount res2 = 0
           ∧ SkippedCount res2 = ProcessedCount res2)
        ∧ (batch1 ≠ [] →
           (∃ ids0 r,
               fst (FileStorage_GetSavedResumeIDs Bytes json_decode file0) = Ok ids0
               ∧ r ∈ concat pgs ∧ validateResume r = true ∧ ID r ∈ ids0) →
           len (concat pgs) <= int_max →
           0 < SavedCount res2))
  ∧ (∀ Bytes (csv_write : list (list string) → Bytes) csv_read Format
       file0 pg fuel criteria pgs src_n page_n res src' res1 uc1,
        let uc0 := NewResumeUseCase (paged pg) file0 in
        let batch1 :=
          ls_allResumes
            (processPage
               (enterLoop
                  (processed
                     (loaded (HT := CSVStorage Bytes csv_write csv_read Format) uc0)))
               (concat pgs)) in
        serves criteria (paged pg) 0 pgs src_n page_n →
        SearchResumes src_n (set_Page criteria page_n) = (res, src') →
        breaks res →
        (length pgs < fuel)%nat →
        ParseResumesByCriteria
          (HT := CSVStorage Bytes csv_write csv_read Format) fuel uc0 criteria
        = Some (res1, None, uc1) →
        csv_read (csv_write (headers :: (record Format <$> batch1)))
        = Ok (headers :: (record Format <$> batch1)) →
        ∃ res2 rerr2 uc2,
          ParseResumesByCriteria
            (HT := CSVStorage Bytes csv_write csv_read Format)
            fuel (NewResumeUseCase (paged pg) (storageRepo uc1)) criteria
          = Some (res2, rerr2, uc2)
          ∧ ProcessedCount res2 = ProcessedCount res1
          ∧ (batch1 = []
             ∨ (∀ ids0 r,
                   fst (CSVStorage_GetSavedResumeIDs Bytes csv_read file0) = Ok ids0 →
                   r ∈ concat pgs → validateResume r = true → ID r ∉ ids0) →
             rerr2 = None ∧ SavedCount res2 = 0
             ∧ SkippedCount res2 = ProcessedCount res2)
          ∧ (batch1 ≠ [] →
             (∃ ids0 r,
                 fst (CSVStorage_GetSavedResumeIDs Bytes csv_read file0) = Ok ids0
                 ∧ r ∈ concat pgs ∧ validateResume r = true ∧ ID r ∈ ids0) →
             len (concat pgs) <= int_max →
             0 < SavedCount res2))
  ∧ (∀ T (HT : StorageRepository T) fuel criteria
       (uc : ResumeUseCase PagedSource T) res1 rerr1 uc1,
        ParseResumesByCriteria fuel uc criteria = Some (res1, rerr1, uc1) →
        ∃ res2 uc2,
          ParseResumesByCriteria fuel uc1 criteria = Some (res2, None, uc2)
          ∧ SavedCount res2 = 0
          ∧ SkippedCount res2 = ProcessedCount res2
          ∧ ProcessedCount res2 = ProcessedCount res1).
Proof.
  split; [|split; [|intros T HT; apply rerun_same_use_case]].
  - intros Bytes empty_file json_encode json_decode file0 pg fuel criteria
      pgs src_n page_n res src' res1 uc1 uc0 batch1 Hs Hlast Hbr Hfuel Hrun1 Hround.
    apply (rerun_fresh_use_case
             (HT := FileStorage Bytes empty_file json_encode json_decode)
             file0 pg fuel criteria pgs src_n page_n res src' res1 uc1);
      try done.
    + intros storage. apply FileStorage_GetSavedResumeIDs_snd.
    + intros storage' Hsave. simpl in Hsave |- *.
      erewrite FileStorage_lists_saved; [done | exact Hround | exact Hsave].
  - intros Bytes csv_write csv_read Format file0 pg fuel criteria
      pgs src_n page_n res src' res1 uc1 uc0 batch1 Hs Hlast Hbr Hfuel Hrun1 Hround.
    apply (rerun_fresh_use_case
             (HT := CSVStorage Bytes csv_write csv_read Format)
             file0 pg fuel criteria pgs src_n page_n res src' res1 uc1);
      try done.
    + intros storage. apply CSVStorage_GetSavedResumeIDs_snd.
    + intros storage' Hsave. simpl in Hsave |- *.
      erewrite CSVStorage_lists_saved; [done | exact Hround | exact Hsave].
Qed.

(** C1 at work with the JSON adapter: the file lists [carol], whom the
    source does not return; the first run replaces the file with [alice]
    and [bob], the second run saves nothing. *)
Lemma C1_witness :
  let pg := serve [[examples.alice; examples.bob]] in
  let carol := examples.resume "c" "Carol" ["Go"%string] in
  ∃ res1 uc1 res2 uc2,
    ParseResumesByCriteria (HT := examples.json_in_memory) 3
      (NewResumeUseCase (paged pg) (Present [carol])) examples.criteria
    = Some (res1, None, uc1)
    ∧ SavedCount res1 = 2
    ∧ ParseResumesByCriteria (HT := examples.json_in_memory) 3
        (NewResumeUseCase (paged pg) (storageRepo uc1)) examples.criteria
      = Some (res2, None, uc2)
    ∧ SavedCount res2 = 0
    ∧ SkippedCount res2 = ProcessedCount res2.
Proof.
  intros pg carol.
  assert (∃ res1 uc1,
             ParseResumesByCriteria (HT := examples.json_in_memory) 3
               (NewResumeUseCase (paged pg) (Present [carol])) examples.criteria
             = Some (res1, None, uc1)
             ∧ SavedCount res1 = 2) as (res1 & uc1 & Hrun1 & Hsaved1).
  { eexists _, _. split; vm_compute; reflexivity. }
  destruct (proj1 C1_second_run_saves_nothing
              (list Resume) [] Ok Ok (Present [carol]) pg 3%nat examples.criteria
              [[examples.alice; examples.bob]]
              {| pages := pg; requested := [0] |} 1 (Ok [])
              {| pages := pg; requested := [0; 1] |} res1 uc1)
    as (res2 & rerr2 & uc2 & Hrun2 & _ & Hnothing & _).
  - eapply serves_cons; [vm_compute; reflexivity | discriminate | apply serves_nil].
  - vm_compute. reflexivity.
  - reflexivity.
  - simpl. lia.
  - exact Hrun1.
  - intros data [= <-]. eexists. split; reflexivity.
  - destruct Hnothing as (Hrerr2 & Hsaved2 & Hskipped2).
    { right. intros ids0 r [= <-] Hr _ Hin.
      apply list_elem_of_singleton in Hin.
      simpl in Hr.
      apply elem_of_cons in Hr as [->|Hr]; [discriminate Hin|].
      apply list_elem_of_singleton in Hr as ->. discriminate Hin. }
    rewrite Hrerr2 in Hrun2.
    exists res1, uc1, res2, uc2. done.
Defined.

(** C1 as the specification words it fails.  The sink holds [alice] from an
    earlier save (an earlier run, when the source had only her).  The first
    run skips her, keeps [bob] and rewrites the sink with [bob] alone; the
    second run, with a use case of its own on that sink, no longer finds
    [alice] listed and saves her: [SavedCount] is 1, not 0. *)
Lemma C1_counterexample :
  let pg := serve [[examples.alice; examples.bob]] in
  let sink0 := snd (SaveResumes (StorageRepository := examples.json_in_memory)
                      Absent [examples.alice]) in
  ∃ res1 uc1 res2 uc2,
    ParseResumesByCriteria (HT := examples.json_in_memory) 3
      (NewResumeUseCase (paged pg) sink0) examples.criteria
    = Some (res1, None, uc1)
    ∧ SavedCount res1 = 1
    ∧ storageRepo uc1 = Present [enriched examples.bob]
    ∧ ParseResumesByCriteria (HT := examples.json_in_memory) 3
        (NewResumeUseCase (paged pg) (storageRepo uc1)) examples.criteria
      = Some (res2, None, uc2)
    ∧ SavedCount res2 = 1
    ∧ SkippedCount res2 = 1
    ∧ ProcessedCount res2 = 2
    ∧ storageRepo uc2 = Present [enriched examples.alice].
Proof.
  intros pg sink0. eexists _, _, _, _.
  split; [vm_compute; reflexivity|].
  split; [vm_compute; reflexivity|].
  split; [vm_compute; reflexivity|].
  split; [vm_compute; reflexivity|].
  vm_compute. repeat split.
Qed.

(** ** The relational script *)

Example escape_doubles_the_quote : escape "O'Brien" = "O''Brien"%string.
Proof. reflexivity. Qed.

Example Sprintf_d_prints_decimal :
  Sprintf_d 0 = "0"%string ∧ Sprintf_d 42 = "42"%string ∧ Sprintf_d (-7) = "-7"%string.
Proof. vm_compute. repeat split. Qed.

Lemma append_assoc (s1 s2 s3 : string) : (s1 +:+ s2) +:+ s3 = s1 +:+ (s2 +:+ s3).
Proof.
  induction s1 as [|c s1 IH]; [done|].
  change (String c ((s1 +:+ s2) +:+ s3) = String c (s1 +:+ (s2 +:+ s3))).
  by rewrite IH.
Qed.

Lemma append_empty_r (s : string) : s +:+ "" = s.
Proof.
  induction s as [|c s IH]; [done|].
  change (String c (s +:+ "") = String c s). by rewrite IH.
Qed.

Lemma foldl_append {A} (f : A → string) (l : list A) : ∀ written,
  foldl (λ w x, w +:+ f x) written l
  = written +:+ foldr (λ x rest, f x +:+ rest) "" l.
Proof.
  induction l as [|x l IH]; intros written; simpl.
  - by rewrite append_empty_r.
  - by rewrite IH, append_assoc.
Qed.

Lemma writeResume_statements Format written resume :
  writeResume Format written resume = written +:+ statements Format resume.
Proof.
  unfold writeResume, statements.
  by rewrite !foldl_append, !append_assoc.
Qed.

Lemma foldl_writeResume Format resumes : ∀ written,
  foldl (writeResume Format) written resumes = written +:+ script Format resumes.
Proof.
  induction resumes as [|resume resumes IH]; intros written; simpl.
  - by rewrite append_empty_r.
  - by rewrite IH, writeResume_statements, append_assoc.
Qed.

(** C9 (as amended).  When the file can be created, the relational-script
    adapter writes the fixed schema first and the statements of the resumes
    after it.  The schema holds seven CREATE statements: three CREATE TABLE
    (resumes, experience, education) and four CREATE INDEX (two on resumes, one
    on experience, one on education); it holds no INSERT. *)
Theorem C9_script_begins_with_schema Format file resumes :
  os_Create file = None →
  SQLStorage_SaveResumes Format file resumes
  = (None, Present (schema +:+ script Format resumes))
  ∧ count_occurrences "CREATE " schema = 7%nat
  ∧ count_occurrences "CREATE TABLE" schema = 3%nat
  ∧ count_occurrences "CREATE TABLE IF NOT EXISTS resumes (" schema = 1%nat
  ∧ count_occurrences "CREATE TABLE IF NOT EXISTS experience (" schema = 1%nat
  ∧ count_occurrences "CREATE TABLE IF NOT EXISTS education (" schema = 1%nat
  ∧ count_occurrences "CREATE INDEX" schema = 4%nat
  ∧ count_occurrences "CREATE INDEX IF NOT EXISTS idx_resumes_skills ON resumes" schema = 1%nat
  ∧ count_occurrences "CREATE INDEX IF NOT EXISTS idx_resumes_location ON resumes" schema = 1%nat
  ∧ count_occurrences "CREATE INDEX IF NOT EXISTS idx_experience_company ON experience" schema = 1%nat
  ∧ count_occurrences "CREATE INDEX IF NOT EXISTS idx_education_institution ON education" schema = 1%nat
  ∧ count_occurrences "INSERT" schema = 0%nat.
Proof.
  intros Hcreate. split.
  - unfold SQLStorage_SaveResumes. rewrite Hcreate.
    by rewrite foldl_writeResume.
  - vm_compute. repeat split.
Qed.

(** C9 at work: the script written for [alice] to a new file. *)
Lemma C9_witness :
  SQLStorage_SaveResumes examples.no_format Absent [examples.alice]
  = (None, Present (schema +:+ script examples.no_format [examples.alice]))
  ∧ count_occurrences "CREATE INDEX" schema = 4%nat.
Proof.
  destruct (C9_script_begins_with_schema examples.no_format Absent [examples.alice])
    as (Hsave & _ & _ & _ & _ & _ & Hindexes & _).
  - reflexivity.
  - split; [exact Hsave | exact Hindexes].
Defined.

(** C9 as the specification words it fails: the schema creates four indexes,
    not two. *)
Lemma C9_counterexample :
  count_occurrences "CREATE TABLE" schema = 3%nat
  ∧ count_occurrences "CREATE INDEX" schema = 4%nat
  ∧ count_occurrences "CREATE INDEX" schema ≠ 2%nat.
Proof. vm_compute. repeat split. discriminate. Qed.


(* ===================================================================== *)
(** * Further properties of the code *)
(* ===================================================================== *)

(** ** What the loop keeps, and in which order *)

(** X1.  The identifiers of the batch the loop accumulates over the records
    it meets are [kept_ids]: the identifiers of the valid records, without
    those the processed set marked on entry, each once, in the order of
    their first occurrence. *)
Theorem X1_batch_ids_are_first_valid_new_occurrences P0 stream :
  ID <$> ls_allResumes (processPage (enterLoop P0) stream) = kept_ids P0 stream.
Proof. rewrite processPage_batch_ids. reflexivity. Qed.

Lemma processPage_batch l : ∀ st,
  ∃ more,
    ls_allResumes (processPage st l) = ls_allResumes st ++ more
    ∧ sublist more (enriched <$> l)
    ∧ ∀ r', r' ∈ more →
            ∃ r, r ∈ l ∧ r' = enriched r ∧ validateResume r = true
                 ∧ isAlreadyProcessed (ls_processed st) (ID r) = false.
Proof.
  induction l as [|r l IH]; intros st.
  - exists []. simpl. rewrite app_nil_r. split; [done|]. split; [constructor|].
    intros r' Hr'. by apply elem_of_nil in Hr'.
  - rewrite processPage_cons.
    destruct (IH (processResume st r)) as (more & Hall & Hsub & Hin).
    destruct (isAlreadyProcessed (ls_processed st) (ID r)) eqn:Hdup;
      [|destruct (validateResume r) eqn:Hv].
    + destruct (processResume_duplicate st r Hdup) as (Ha & Hp & _).
      exists more. rewrite Hall, Ha. split; [done|].
      split; [rewrite fmap_cons; by apply sublist_cons|].
      intros r' Hr'. destruct (Hin r' Hr') as (r0 & Hr0 & -> & Hv0 & Hn0).
      exists r0. rewrite Hp in Hn0. rewrite elem_of_cons. tauto.
    + destruct (processResume_fresh_valid st r Hdup Hv) as (Ha & Hp & _).
      exists (enriched r :: more). rewrite Hall, Ha, <- app_assoc.
      split; [done|]. split; [rewrite fmap_cons; by apply sublist_skip|].
      intros r' Hr'. apply elem_of_cons in Hr' as [->|Hr'].
      * exists r. rewrite elem_of_cons. tauto.
      * destruct (Hin r' Hr') as (r0 & Hr0 & -> & Hv0 & Hn0).
        exists r0. rewrite Hp, isAlreadyProcessed_mark in Hn0.
        destruct (decide (ID r = ID r0)); [discriminate|].
        rewrite elem_of_cons. tauto.
    + destruct (processResume_invalid st r Hv) as (Ha & Hp & _).
      exists more. rewrite Hall, Ha. split; [done|].
      split; [rewrite fmap_cons; by apply sublist_cons|].
      intros r' Hr'. destruct (Hin r' Hr') as (r0 & Hr0 & -> & Hv0 & Hn0).
      exists r0. rewrite Hp in Hn0. rewrite elem_of_cons. tauto.
Qed.

(** X2.  The batch keeps the order in which the records were met: it is a
    subsequence of the records met, each with its skills normalised.  Every
    record of the batch comes from a record that passed validation and whose
    identifier the processed set did not mark on entry; everything but its
    skills is as fetched, and its skills hold neither a duplicate nor an
    empty entry. *)
Theorem X2_batch_is_in_fetch_order P0 stream :
  let batch := ls_allResumes (processPage (enterLoop P0) stream) in
  sublist batch (enriched <$> stream)
  ∧ ∀ r', r' ∈ batch →
          ∃ r, r ∈ stream
               ∧ r' = set_Skills r (normalizeSkills (Skills r))
               ∧ validateResume r = true
               ∧ isAlreadyProcessed P0 (ID r) = false
               ∧ NoDup (Skills r')
               ∧ ""%string ∉ Skills r'.
Proof.
  intros batch.
  destruct (processPage_batch stream (enterLoop P0)) as (more & Hall & Hsub & Hin).
  simpl in Hall. subst batch. rewrite Hall.
  split; [exact Hsub|].
  intros r' Hr'. destruct (Hin r' Hr') as (r & Hr & -> & Hv & Hnew).
  exists r. split; [exact Hr|]. split; [reflexivity|].
  split; [exact Hv|]. split; [exact Hnew|].
  simpl. rewrite normalizeSkills_spec. unfold spec_normalize.
  split; [apply NoDup_first_occurrences|].
  rewrite elem_of_first_occurrences, list_elem_of_filter. tauto.
Qed.

(** ** The processed set after the loop *)

(** X3.  After the loop an identifier is marked as processed exactly when
    the processed set marked it on entry or a record with this identifier
    was put in the batch; the identifiers of records that were only skipped
    as invalid are not marked. *)
Theorem X3_marks_after_the_loop P0 stream id :
  let st := processPage (enterLoop P0) stream in
  isAlreadyProcessed (ls_processed st) id = true
  ↔ isAlreadyProcessed P0 id = true ∨ id ∈ kept_ids P0 stream.
Proof.
  intros st.
  pose proof (loop_inv_processPage P0 stream _ (loop_inv_enter P0)) as Hinv.
  fold st in Hinv.
  assert (kept_ids P0 stream = ID <$> ls_allResumes st) as ->.
  { unfold st. by rewrite processPage_batch_ids. }
  split.
  - apply (inv_origin _ _ Hinv).
  - intros [Hid|Hid]; [by apply (inv_grows _ _ Hinv)|].
    apply list_elem_of_fmap in Hid as (r & -> & Hr).
    by apply (inv_marked _ _ Hinv).
Qed.

(** ** Loading the identifiers already saved *)

(** X4.  [loadProcessedResumes] returns the error of [GetSavedResumeIDs], if
    any, and leaves the source alone.  After it an identifier is marked
    exactly when it was marked before or the storage listed it: a listing
    that fails adds no mark and removes none. *)
Theorem X4_loading_adds_the_listed_identifiers
    `{HT : StorageRepository T} {R} (uc : ResumeUseCase R T) :
  let listed := fst (GetSavedResumeIDs (storageRepo uc)) in
  let '(err, uc') := loadProcessedResumes uc in
  err = match listed with Ok _ => None | Err e => Some e end
  ∧ resumeRepo uc' = resumeRepo uc
  ∧ storageRepo uc' = snd (GetSavedResumeIDs (storageRepo uc))
  ∧ ∀ id,
      isAlreadyProcessed (processed uc') id = true
      ↔ isAlreadyProcessed (processed uc) id = true
        ∨ ∃ ids, listed = Ok ids ∧ id ∈ ids.
Proof.
  intros listed. subst listed. unfold loadProcessedResumes.
  destruct (GetSavedResumeIDs (storageRepo uc)) as [[ids|e] storage]; simpl.
  - split; [done|]. split; [done|]. split; [done|].
    intros id. rewrite isAlreadyProcessed_load.
    split; [|intros [?|(ids' & [= <-] & ?)]; tauto].
    intros [?|?]; [tauto | right; by exists ids].
  - split; [done|]. split; [done|]. split; [done|].
    intros id. split; [tauto | intros [?|(ids' & ? & ?)]; [done | discriminate]].
Qed.

(** ** The errors a run records *)

Lemma serves_page `{HR : ResumeRepository R} criteria
    (repo : R) page pgs repo' page' :
  serves criteria repo page pgs repo' page' →
  in_range page →
  page' = int_wrap (page + len pgs).
Proof.
  induction 1 as [repo page | repo page resumes repo1 pgs repo2 page2 _ _ _ IH];
    intros Hrange.
  - unfold len. simpl. rewrite Z.add_0_r. symmetry. by apply int_wrap_small.
  - rewrite IH by apply int_wrap_range.
    unfold int_incr, int_add, len. simpl length.
    rewrite int_wrap_add_l. f_equal. lia.
Qed.

(** X5.  A run that returns was served some non-empty pages [pgs] before the
    fetch that ended it.  Its [ProcessedCount] is the number of records of
    those pages.  Its [Errors] hold at most one error: none when an empty
    page ended the loop, and when a failed fetch ended it, that failure
    wrapped with the number of the page, which is the number of pages served
    before.  The error of a failed flush is returned, not recorded there. *)
Theorem X5_a_run_records_at_most_one_error
    `{HR : ResumeRepository R} `{HT : StorageRepository T}
    fuel (uc : ResumeUseCase R T) criteria result rerr uc' :
  ParseResumesByCriteria fuel uc criteria = Some (result, rerr, uc') →
  ∃ pgs repo_n page_n res,
    serves criteria (resumeRepo (loaded uc)) 0 pgs repo_n page_n
    ∧ SearchResumes repo_n (set_Page criteria page_n) = (res, resumeRepo uc')
    ∧ page_n = int_wrap (len pgs)
    ∧ ProcessedCount result = int_wrap (len (concat pgs))
    ∧ match res with
      | Ok resumes => resumes = [] ∧ Errors result = []
      | Err err =>
          Errors result
          = [Errorf "ошибка поиска на странице %d: %w"
               [ArgInt (int_wrap (len pgs)); ArgErr err]]
      end.
Proof.
  rewrite ParseResumesByCriteria_unfold.
  destruct (paginate _ _ _ _ _) as [[repo st]|] eqn:Hloop; [|discriminate].
  apply paginate_inv in Hloop
    as (pgs & repo_n & page_n & res & Hs & Hlast & Hbr & _ & ->).
  pose proof (serves_page _ _ _ _ _ _ Hs) as Hpage.
  rewrite Z.add_0_l in Hpage.
  specialize (Hpage ltac:(unfold in_range, int_min, int_max; lia)).
  set (st := processPage (enterLoop (processed (loaded uc))) (concat pgs)).
  pose proof (loop_inv_processPage _ (concat pgs) _
                (loop_inv_enter (processed (loaded uc)))) as Hinv.
  fold st in Hinv.
  pose proof (processPage_ProcessedCount (concat pgs)
                (enterLoop (processed (loaded uc))) 0 eq_refl) as Hpc.
  fold st in Hpc. rewrite Z.add_0_l in Hpc.
  assert (ProcessedCount (ls_result (finish st page_n res))
          = int_wrap (len (concat pgs))
          ∧ match res with
            | Ok resumes => resumes = [] ∧ Errors (ls_result (finish st page_n res)) = []
            | Err err =>
                Errors (ls_result (finish st page_n res))
                = [Errorf "ошибка поиска на странице %d: %w"
                     [ArgInt (int_wrap (len pgs)); ArgErr err]]
            end) as [Hcount Herrors].
  { destruct res as [resumes|err]; simpl.
    - split; [exact Hpc|]. split; [exact Hbr | apply Hinv].
    - split; [exact Hpc|]. rewrite (inv_errors _ _ Hinv), Hpage. done. }
  intros Hrun. exists pgs, repo_n, page_n, res.
  destruct (0 <? len _); [destruct (SaveResumes _ _) as [[e|] storage]|];
    simpl in Hrun; injection Hrun as <- _ <-; simpl;
    (split; [exact Hs|]); (split; [exact Hlast|]); (split; [exact Hpage|]);
    (split; [exact Hcount | exact Herrors]).
Qed.

(** X5 at work: the second fetch times out. *)
Lemma X5_witness :
  ∃ result rerr uc',
    ParseResumesByCriteria (HT := examples.csv_in_memory) 2
      (NewResumeUseCase (paged examples.one_page_then_timeout) Absent)
      examples.criteria
    = Some (result, rerr, uc')
    ∧ ∃ pgs repo_n page_n res,
        serves examples.criteria (paged examples.one_page_then_timeout) 0
          pgs repo_n page_n
        ∧ SearchResumes repo_n (set_Page examples.criteria page_n)
          = (res, resumeRepo uc')
        ∧ page_n = int_wrap (len pgs)
        ∧ ProcessedCount result = int_wrap (len (concat pgs))
        ∧ match res with
          | Ok resumes => resumes = [] ∧ Errors result = []
          | Err err =>
              Errors result
              = [Errorf "ошибка поиска на странице %d: %w"
                   [ArgInt (int_wrap (len pgs)); ArgErr err]]
          end.
Proof.
  assert (∃ result rerr uc',
             ParseResumesByCriteria (HT := examples.csv_in_memory) 2
               (NewResumeUseCase (paged examples.one_page_then_timeout) Absent)
               examples.criteria
             = Some (result, rerr, uc')) as (result & rerr & uc' & Hrun).
  { eexists _, _, _. vm_compute. reflexivity. }
  exists result, rerr, uc'. split; [exact Hrun|].
  exact (X5_a_run_records_at_most_one_error _ _ _ _ _ _ Hrun).
Defined.

(** ** A source that never stops *)

(** X6.  The loop has no bound of its own: against a source that answers
    every page with at least one record and never fails, no run returns,
    whatever the fuel. *)
Theorem X6_no_page_limit `{HT : StorageRepository T}
    (storage : T) criteria pg fuel :
  (∀ p, ∃ resumes, pg p = Ok resumes ∧ resumes ≠ []) →
  ParseResumesByCriteria fuel (NewResumeUseCase (paged pg) storage) criteria = None.
Proof.
  intros Hpages. rewrite ParseResumesByCriteria_unfold, loaded_resumeRepo.
  simpl. unfold paged. by rewrite paginate_never_returns.
Qed.

(** X6 at work: a source that answers every page with [alice]. *)
Lemma X6_witness :
  ParseResumesByCriteria (HT := examples.csv_in_memory) 1000
    (NewResumeUseCase (paged (λ _, Ok [examples.alice])) Absent) examples.criteria
  = None.
Proof.
  apply X6_no_page_limit. intros p. exists [examples.alice]. by split.
Defined.

(** ** Quoting in the relational script *)

Lemma append_String c (s t : string) : String c s +:+ t = String c (s +:+ t).
Proof. reflexivity. Qed.

Lemma escape_quote s : escape (String quote s) = String quote (String quote (escape s)).
Proof. reflexivity. Qed.

Lemma escape_other c s : c ≠ quote → escape (String c s) = String c (escape s).
Proof.
  intros Hc. simpl. destruct (Ascii.eqb c "'") eqn:E; [|done].
  apply Ascii.eqb_eq in E. done.
Qed.

Lemma escape_delimited s1 : ∀ s2 t1 t2,
  no_quote_ahead t1 → no_quote_ahead t2 →
  escape s1 +:+ String quote t1 = escape s2 +:+ String quote t2 →
  s1 = s2 ∧ t1 = t2.
Proof.
  induction s1 as [|c s1 IH]; intros s2 t1 t2 H1 H2 Heq.
  - destruct s2 as [|d s2].
    + simpl in Heq. injection Heq as ->. done.
    + destruct (decide (d = quote)) as [->|Hd].
      * rewrite escape_quote, !append_String in Heq. simpl in Heq.
        injection Heq as ->. simpl in H1. done.
      * rewrite (escape_other d) in Heq by done.
        rewrite append_String in Heq. simpl in Heq. injection Heq as Hq _.
        by rewrite Hq in Hd.
  - destruct (decide (c = quote)) as [->|Hc].
    + rewrite escape_quote, !append_String in Heq.
      destruct s2 as [|d s2].
      * simpl in Heq. injection Heq as <-. simpl in H2. done.
      * destruct (decide (d = quote)) as [->|Hd].
        -- rewrite escape_quote, !append_String in Heq.
           injection Heq as Heq.
           destruct (IH s2 t1 t2 H1 H2 Heq) as [-> ->]. done.
        -- rewrite (escape_other d) in Heq by done.
           rewrite append_String in Heq. injection Heq as Hq _.
           by rewrite <- Hq in Hd.
    + rewrite (escape_other c) in Heq by done. rewrite append_String in Heq.
      destruct s2 as [|d s2].
      * simpl in Heq. injection Heq as Hq _. by rewrite Hq in Hc.
      * destruct (decide (d = quote)) as [->|Hd].
        -- rewrite escape_quote, !append_String in Heq.
           injection Heq as Hq _. by rewrite Hq in Hc.
        -- rewrite (escape_other d) in Heq by done.
           rewrite append_String in Heq. injection Heq as -> Heq.
           destruct (IH s2 t1 t2 H1 H2 Heq) as [-> ->]. done.
Qed.

(** X7.  Quoting with [escape] is unambiguous: when a value is written as
    its escape followed by the closing quote, and the text after the closing
    quote does not begin with a quote (in the script it begins with a comma,
    a line end or a parenthesis), the value and the text after it can be read
    back in one way only.  In particular [escape] is injective. *)
Theorem X7_escape_is_unambiguous :
  (∀ s1 s2 t1 t2,
      no_quote_ahead t1 → no_quote_ahead t2 →
      escape s1 +:+ String quote t1 = escape s2 +:+ String quote t2 →
      s1 = s2 ∧ t1 = t2)
  ∧ (∀ s1 s2, escape s1 = escape s2 → s1 = s2).
Proof.
  split; [intros s1; apply escape_delimited|].
  intros s1 s2 Heq.
  destruct (escape_delimited s1 s2 "" "" I I) as [Hs _]; [|exact Hs].
  by rewrite Heq.
Qed.

(** X7 at work on a name with a quote in it. *)
Lemma X7_witness :
  escape "O'Brien" = "O''Brien"%string
  ∧ "O'Brien"%string = "O'Brien"%string
  ∧ ", 'x'"%string = ", 'x'"%string.
Proof.
  split; [reflexivity|].
  apply (proj1 X7_escape_is_unambiguous "O'Brien" "O'Brien" ", 'x'" ", 'x'")%string.
  - simpl. discriminate.
  - simpl. discriminate.
  - reflexivity.
Defined.

Lemma prefix_quote c s :
  String.prefix (String quote "") (String c s) = bool_decide (c = quote).
Proof.
  change (String.prefix (String quote "") (String c s))
    with (match ascii_dec quote c with
          | left _ => String.prefix "" s
          | right _ => false
          end).
  destruct (ascii_dec quote c) as [<-|Hne].
  - rewrite bool_decide_true by reflexivity. by destruct s.
  - symmetry. apply bool_decide_eq_false. intros ->. by apply Hne.
Qed.

(** X8.  [escape] doubles every quote and touches nothing else: the result
    is longer than the value by the number of quotes in it, holds twice as
    many quotes, and is the value itself exactly when the value holds no
    quote. *)
Theorem X8_escape_doubles_the_quotes s :
  String.length (escape s) = (String.length s + count_occurrences "'" s)%nat
  ∧ count_occurrences "'" (escape s) = (2 * count_occurrences "'" s)%nat
  ∧ (escape s = s ↔ count_occurrences "'" s = 0%nat).
Proof.
  induction s as [|c s (IHlen & IHcount & IHid)]; [done|].
  destruct (decide (c = quote)) as [->|Hc].
  - rewrite escape_quote.
    change (count_occurrences "'" (String quote s))
      with ((if String.prefix "'" (String quote s) then 1 else 0)
            + count_occurrences "'" s)%nat.
    change (count_occurrences "'" (String quote (String quote (escape s))))
      with ((if String.prefix "'" (String quote (String quote (escape s))) then 1 else 0)
            + ((if String.prefix "'" (String quote (escape s)) then 1 else 0)
               + count_occurrences "'" (escape s)))%nat.
    rewrite !prefix_quote, !bool_decide_true by done.
    simpl String.length. rewrite IHlen, IHcount.
    split; [lia|]. split; [lia|].
    split; [|lia].
    intros Heq. apply (f_equal String.length) in Heq.
    simpl in Heq. rewrite IHlen in Heq. lia.
  - rewrite escape_other by done.
    change (count_occurrences "'" (String c s))
      with ((if String.prefix "'" (String c s) then 1 else 0)
            + count_occurrences "'" s)%nat.
    change (count_occurrences "'" (String c (escape s)))
      with ((if String.prefix "'" (String c (escape s)) then 1 else 0)
            + count_occurrences "'" (escape s))%nat.
    rewrite !prefix_quote, !bool_decide_false by done.
    simpl String.length. rewrite IHlen, IHcount.
    split; [lia|]. split; [lia|].
    simpl. rewrite <- IHid. split; [by intros [= ?] | by intros ->].
Qed.

(** ** Joining strings *)

Lemma joinStrings_foldl sep (rest : list string) : ∀ first,
  foldl (λ result item, result +:+ sep +:+ item) first rest
  = String.concat sep (first :: rest).
Proof.
  induction rest as [|item rest IH]; intros first; [done|].
  simpl foldl. rewrite IH.
  change (String.concat sep (first :: item :: rest))
    with (first +:+ sep +:+ String.concat sep (item :: rest)).
  destruct rest as [|item' rest].
  - reflexivity.
  - change (String.concat sep ((first +:+ sep +:+ item) :: item' :: rest))
      with ((first +:+ sep +:+ item) +:+ sep +:+ String.concat sep (item' :: rest)).
    change (String.concat sep (item :: item' :: rest))
      with (item +:+ sep +:+ String.concat sep (item' :: rest)).
    by rewrite !append_assoc.
Qed.

(** X9.  [joinStrings] joins like [String.concat], which stands for
    [strings.Join] in [mainSQL]: the items with the separator between them,
    the empty string for no item and the item itself for one.  The Skills
    cell of the CSV file is the skills joined with ["; "]. *)
Theorem X9_joinStrings_is_Join :
  (∀ items sep, joinStrings items sep = String.concat sep items)
  ∧ (∀ sep, joinStrings [] sep = ""%string)
  ∧ (∀ item sep, joinStrings [item] sep = item)
  ∧ (∀ skills, formatSkills skills = String.concat "; " skills).
Proof.
  assert (∀ items sep, joinStrings items sep = String.concat sep items) as Hjoin.
  { intros [|first rest] sep; [done|]. apply joinStrings_foldl. }
  split; [exact Hjoin|]. split; [done|]. split; [done|].
  intros skills. apply Hjoin.
Qed.

(** X10.  The Experience cell of a CSV row is the texts of the entries,
    [position at company (start - end)], in order with [" | "] between
    them, and the Education cell the texts [institution, specialty (year)];
    for a resume without entries the cell is empty.  The description and
    industry of a job, and the faculty and level of an education, are not
    written. *)
Theorem X10_csv_cells_of_nested_entries :
  (∀ experience, formatExperience experience = String.concat " | " (jobText <$> experience))
  ∧ (∀ education, formatEducation education = String.concat " | " (eduText <$> education))
  ∧ formatExperience [] = ""%string
  ∧ formatEducation [] = ""%string.
Proof.
  assert (∀ items sep, joinStrings items sep = String.concat sep items) as Hjoin.
  { intros [|first rest] sep; [done|]. apply joinStrings_foldl. }
  split; [|split; [|done]].
  - intros experience. unfold formatExperience.
    rewrite (foldl_snoc_fmap jobText). apply Hjoin.
  - intros education. unfold formatEducation.
    rewrite (foldl_snoc_fmap eduText). apply Hjoin.
Qed.

(** ** What the adapters leave in the sink *)

(** X11.  After a successful save the CSV adapter has handed the csv writer
    one record more than the batch has resumes: the header first, then the
    record of each resume at the place the resume has in the batch.  Every
    record, the header included, has thirteen fields, and the first field of
    the record of a resume is its identifier. *)
Theorem X11_csv_file_is_rectangular
    Bytes (csv_write : list (list string) → Bytes) Format file batch file' :
  CSVStorage_SaveResumes Bytes csv_write Format file batch = (None, file') →
  ∃ records,
    file' = Present (csv_write records)
    ∧ length records = S (length batch)
    ∧ records !! 0%nat = Some headers
    ∧ Forall (λ fields, length fields = 13%nat) records
    ∧ ∀ i resume,
        batch !! i = Some resume →
        ∃ fields, records !! S i = Some (ID resume :: fields).
Proof.
  intros Hsave. apply CSVStorage_SaveResumes_ok in Hsave as ->.
  exists (headers :: (record Format <$> batch)).
  split; [done|]. split; [simpl; by rewrite length_fmap|]. split; [done|].
  split.
  - constructor; [done|]. apply Forall_fmap, Forall_forall. by intros r _.
  - intros i resume Hi. simpl. rewrite list_lookup_fmap, Hi. simpl.
    unfold record. eauto.
Qed.

(** X11 at work on a new file. *)
Lemma X11_witness :
  ∃ records,
    (Present (headers :: (record examples.no_format
                            <$> [examples.alice; examples.bob]))
     : FileState (list (list string)))
    = Present records
    ∧ length records = 3%nat
    ∧ records !! 0%nat = Some headers
    ∧ Forall (λ fields, length fields = 13%nat) records
    ∧ ∀ i resume,
        [examples.alice; examples.bob] !! i = Some resume →
        ∃ fields, records !! S i = Some (ID resume :: fields).
Proof.
  apply (X11_csv_file_is_rectangular (list (list string)) id examples.no_format
           Absent [examples.alice; examples.bob]).
  reflexivity.
Defined.

(** X12.  Saves are not additive.  With the CSV adapter and with the JSON
    adapter, a second successful save leaves the file the second batch would
    have given on its own, whatever the first save wrote; and when the
    encoding package reads back what was written, the identifiers listed
    afterwards are those of the second batch alone. *)
Theorem X12_a_save_replaces_the_previous_one :
  (∀ Bytes (csv_write : list (list string) → Bytes) csv_read Format
     file batch1 batch2 file1 file2,
      CSVStorage_SaveResumes Bytes csv_write Format file batch1 = (None, file1) →
      CSVStorage_SaveResumes Bytes csv_write Format file1 batch2 = (None, file2) →
      CSVStorage_SaveResumes Bytes csv_write Format file batch2 = (None, file2)
      ∧ (csv_read (csv_write (headers :: (record Format <$> batch2)))
         = Ok (headers :: (record Format <$> batch2)) →
         CSVStorage_GetSavedResumeIDs Bytes csv_read file2
         = (Ok (ID <$> batch2), file2)))
  ∧ (∀ Bytes (empty_file : Bytes) json_encode json_decode
       file batch1 batch2 file1 file2,
        FileStorage_SaveResumes Bytes empty_file json_encode file batch1 = (None, file1) →
        FileStorage_SaveResumes Bytes empty_file json_encode file1 batch2 = (None, file2) →
        FileStorage_SaveResumes Bytes empty_file json_encode file batch2 = (None, file2)
        ∧ ((∀ data, json_encode batch2 = Ok data →
                    ∃ resumes, json_decode data = Ok resumes
                               ∧ ID <$> resumes = ID <$> batch2) →
           FileStorage_GetSavedResumeIDs Bytes json_decode file2
           = (Ok (ID <$> batch2), file2))).
Proof.
  split.
  - intros Bytes csv_write csv_read Format file batch1 batch2 file1 file2 H1 H2.
    split.
    + pose proof (CSVStorage_SaveResumes_ok _ _ _ _ _ _ H2) as ->.
      unfold CSVStorage_SaveResumes in H1 |- *.
      destruct (os_Create file); [discriminate|]. by rewrite foldl_snoc_fmap.
    + intros Hround. by eapply CSVStorage_lists_saved.
  - intros Bytes empty_file json_encode json_decode file batch1 batch2
      file1 file2 H1 H2.
    split.
    + unfold FileStorage_SaveResumes in *.
      destruct (os_Create file); [discriminate|].
      destruct (json_encode batch1); [|discriminate].
      injection H1 as <-. simpl in H2. exact H2.
    + intros Hround. by eapply FileStorage_lists_saved.
Qed.

(** X12 at work: [alice] is saved, then [bob]; only [bob] is listed. *)
Lemma X12_witness :
  FileStorage_GetSavedResumeIDs (list Resume) Ok (Present [examples.bob])
  = (Ok ["b"%string], Present [examples.bob]).
Proof.
  destruct (proj2 X12_a_save_replaces_the_previous_one
              (list Resume) [] Ok Ok Absent [examples.alice] [examples.bob]
              (Present [examples.alice]) (Present [examples.bob])
              eq_refl eq_refl) as [_ Hlist].
  apply Hlist. intros data [= <-]. by exists [examples.bob].
Defined.

(** ** A run that keeps nothing *)

Lemma kept_ids_nil P0 stream :
  kept_ids P0 stream = [] →
  ∀ r, r ∈ stream →
       isAlreadyProcessed P0 (ID r) = true ∨ validateResume r = false.
Proof.
  intros Hnil r Hr.
  destruct (isAlreadyProcessed P0 (ID r)) eqn:Hmark; [by left|].
  destruct (validateResume r) eqn:Hvalid; [|by right].
  assert (ID r ∈ kept_ids P0 stream) as Hin.
  { unfold kept_ids. apply elem_of_first_occurrences, list_elem_of_filter.
    split; [exact Hmark|].
    apply list_elem_of_fmap. exists r. split; [done|].
    by apply list_elem_of_filter. }
  rewrite Hnil in Hin. by apply elem_of_nil in Hin.
Qed.

(** X13.  Listing the saved identifiers never changes the sink, with any
    of the three adapters.  Hence a run in which no record is to be kept
    leaves the sink exactly as it found it (the file is neither created
    nor truncated), returns no error and counts every record as skipped. *)
Theorem X13_a_run_that_keeps_nothing_leaves_the_sink :
  (∀ Bytes json_decode file,
      snd (FileStorage_GetSavedResumeIDs Bytes json_decode file) = file)
  ∧ (∀ Bytes csv_read file,
        snd (CSVStorage_GetSavedResumeIDs Bytes csv_read file) = file)
  ∧ (∀ file, snd (SQLStorage_GetSavedResumeIDs file) = file)
  ∧ (∀ R (HR : ResumeRepository R) T (HT : StorageRepository T)
       fuel (uc : ResumeUseCase R T) criteria pgs repo_n page_n res repo',
        (∀ storage : T, snd (GetSavedResumeIDs storage) = storage) →
        serves criteria (resumeRepo (loaded uc)) 0 pgs repo_n page_n →
        SearchResumes repo_n (set_Page criteria page_n) = (res, repo') →
        breaks res →
        (length pgs < fuel)%nat →
        kept_ids (processed (loaded uc)) (concat pgs) = [] →
        ∃ result uc',
          ParseResumesByCriteria fuel uc criteria = Some (result, None, uc')
          ∧ storageRepo uc' = storageRepo uc
          ∧ SavedCount result = 0
          ∧ SkippedCount result = ProcessedCount result).
Proof.
  split; [|split; [|split; [done|]]].
  - intros Bytes json_decode file. unfold FileStorage_GetSavedResumeIDs.
    destruct (os_Open file) as [data|err];
      [by destruct (json_decode data) | by destruct (IsNotExist err)].
  - intros Bytes csv_read file. unfold CSVStorage_GetSavedResumeIDs.
    destruct (os_Open file) as [data|err]; [|by destruct (IsNotExist err)].
    by destruct (csv_read data) as [[|header records]|err].
  - intros R HR T HT fuel uc criteria pgs repo_n page_n res repo'
      Hreadonly Hs Hlast Hbr Hfuel Hnone.
    destruct (run_with_all_known fuel criteria uc pgs repo_n page_n res repo'
                Hs Hlast Hbr Hfuel (kept_ids_nil _ _ Hnone))
      as (result & uc' & Hrun & Hsaved & Hskipped & _ & Hstorage).
    exists result, uc'. split; [exact Hrun|].
    split; [|by split].
    rewrite Hstorage. unfold loaded, loadProcessedResumes.
    pose proof (Hreadonly (storageRepo uc)) as Hro.
    by destruct (GetSavedResumeIDs (storageRepo uc)) as [[ids|e] storage].
Qed.

(** X13 at work: the file lists [alice] already, the source serves [alice]
    and then times out; the file is left as it was. *)
Lemma X13_witness :
  ∃ result uc',
    ParseResumesByCriteria (HT := examples.json_in_memory) 2
      (NewResumeUseCase (paged examples.one_page_then_timeout)
         (Present [examples.alice]))
      examples.criteria
    = Some (result, None, uc')
    ∧ storageRepo uc' = Present [examples.alice]
    ∧ SavedCount result = 0
    ∧ SkippedCount result = ProcessedCount result.
Proof.
  destruct X13_a_run_that_keeps_nothing_leaves_the_sink
    as (Hjson & _ & _ & Hrun).
  apply (Hrun PagedSource _ (FileState (list Resume)) examples.json_in_memory 2%nat
           (NewResumeUseCase (paged examples.one_page_then_timeout)
              (Present [examples.alice]))
           examples.criteria [[examples.alice]]
           {| pages := examples.one_page_then_timeout; requested := [0] |} 1
           (Err (ErrOther "timeout"))
           {| pages := examples.one_page_then_timeout; requested := [0; 1] |}).
  - exact (Hjson (list Resume) Ok).
  - eapply serves_cons; [vm_compute; reflexivity | discriminate | apply serves_nil].
  - vm_compute. reflexivity.
  - exact I.
  - simpl. lia.
  - vm_compute. reflexivity.
Defined.

(** X14.  The relational-script adapter never lists what it saved, so a use
    case built on it starts every run with an empty processed set: a second
    run with a use case of its own against the same source returns what the
    first run returned, error included, and leaves the script as the first
    run left it. *)
Theorem X14_sql_sink_gives_no_memory
    (Format : Time → string → string) pg fuel criteria file0 res1 rerr1 uc1 :
  ParseResumesByCriteria (HT := SQLStorage Format) fuel
    (NewResumeUseCase (paged pg) file0) criteria
  = Some (res1, rerr1, uc1) →
  processed (loaded (HT := SQLStorage Format)
               (NewResumeUseCase (paged pg) (storageRepo uc1))) = ∅
  ∧ ∃ uc2,
      ParseResumesByCriteria (HT := SQLStorage Format) fuel
        (NewResumeUseCase (paged pg) (storageRepo uc1)) criteria
      = Some (res1, rerr1, uc2)
      ∧ storageRepo uc2 = storageRepo uc1.
Proof.
  intros Hrun1. split; [reflexivity|].
  rewrite ParseResumesByCriteria_unfold in Hrun1 |- *.
  change (resumeRepo (loaded (HT := SQLStorage Format)
                        (NewResumeUseCase (paged pg) (storageRepo uc1))))
    with (paged pg).
  change (resumeRepo (loaded (HT := SQLStorage Format)
                        (NewResumeUseCase (paged pg) file0)))
    with (paged pg) in Hrun1.
  change (processed (loaded (HT := SQLStorage Format)
                       (NewResumeUseCase (paged pg) (storageRepo uc1))))
    with (∅ : gmap string bool).
  change (processed (loaded (HT := SQLStorage Format)
                       (NewResumeUseCase (paged pg) file0)))
    with (∅ : gmap string bool) in Hrun1.
  destruct (paginate fuel (paged pg) criteria 0 (enterLoop ∅)) as [[repo st]|];
    [|discriminate].
  change (storageRepo (loaded (HT := SQLStorage Format)
                         (NewResumeUseCase (paged pg) file0)))
    with file0 in Hrun1.
  change (storageRepo (loaded (HT := SQLStorage Format)
                         (NewResumeUseCase (paged pg) (storageRepo uc1))))
    with (storageRepo uc1).
  destruct (0 <? len (ls_allResumes st)) eqn:Hbatch.
  - simpl in Hrun1 |- *. unfold SQLStorage_SaveResumes in Hrun1 |- *.
    destruct file0 as [| |data]; simpl in Hrun1;
      injection Hrun1 as <- <- <-; simpl; eauto.
  - injection Hrun1 as <- <- <-. simpl. eauto.
Qed.

(** X14 at work: [alice] is saved again by the second run. *)
Lemma X14_witness :
  ∃ res1 rerr1 uc1 uc2,
    ParseResumesByCriteria (HT := SQLStorage examples.no_format) 2
      (NewResumeUseCase (paged examples.one_page_then_timeout) Absent)
      examples.criteria
    = Some (res1, rerr1, uc1)
    ∧ SavedCount res1 = 1
    ∧ ParseResumesByCriteria (HT := SQLStorage examples.no_format) 2
        (NewResumeUseCase (paged examples.one_page_then_timeout) (storageRepo uc1))
        examples.criteria
      = Some (res1, rerr1, uc2)
    ∧ storageRepo uc2 = storageRepo uc1.
Proof.
  assert (∃ res1 rerr1 uc1,
             ParseResumesByCriteria (HT := SQLStorage examples.no_format) 2
               (NewResumeUseCase (paged examples.one_page_then_timeout) Absent)
               examples.criteria
             = Some (res1, rerr1, uc1)
             ∧ SavedCount res1 = 1) as (res1 & rerr1 & uc1 & Hrun & Hsaved).
  { eexists _, _, _. split; vm_compute; reflexivity. }
  destruct (X14_sql_sink_gives_no_memory _ _ _ _ _ _ _ _ Hrun)
    as (_ & uc2 & Hrun2 & Hstorage).
  exists res1, rerr1, uc1, uc2. auto.
Defined.

(** ** Validation, normalisation and the queries of a resume *)

Lemma normalizeSkills_elem skills s :
  s ∈ normalizeSkills skills ↔ s ∈ skills ∧ s ≠ ""%string.
Proof.
  rewrite normalizeSkills_spec. unfold spec_normalize.
  rewrite elem_of_first_occurrences, list_elem_of_filter. tauto.
Qed.

Lemma normalizeSkills_clean skills :
  ""%string ∉ skills → NoDup skills → normalizeSkills skills = skills.
Proof.
  intros Hclean Hnodup. rewrite normalizeSkills_spec. unfold spec_normalize.
  assert (filter (λ s, s ≠ ""%string) skills = skills) as ->.
  { by apply filter_ne_absent. }
  by apply first_occurrences_NoDup.
Qed.

Lemma normalizeSkills_idem skills :
  normalizeSkills (normalizeSkills skills) = normalizeSkills skills.
Proof.
  apply normalizeSkills_clean.
  - rewrite normalizeSkills_elem. tauto.
  - rewrite normalizeSkills_spec. apply NoDup_first_occurrences.
Qed.

Lemma normalizeSkills_nil skills :
  normalizeSkills skills = [] ↔ ∀ s, s ∈ skills → s = ""%string.
Proof.
  split.
  - intros Hnil s Hs. destruct (decide (s = ""%string)) as [|Hne]; [done|].
    assert (s ∈ normalizeSkills skills) as Hin by (by apply normalizeSkills_elem).
    rewrite Hnil in Hin. by apply elem_of_nil in Hin.
  - intros Hall. destruct (normalizeSkills skills) as [|s rest] eqn:Hn; [done|].
    assert (s ∈ normalizeSkills skills) as Hin by (rewrite Hn; left).
    apply normalizeSkills_elem in Hin as [Hs Hne]. by apply Hall in Hs.
Qed.

Lemma len_zero_false {A} (l : list A) : (len l =? 0) = false ↔ l ≠ [].
Proof.
  rewrite <- len_zero. destruct (len l =? 0); split; congruence.
Qed.

(** X15.  Validation looks at the record as it was fetched, normalisation
    comes after it.  Normalisation does not touch what [IsValid] reads, and
    applying it again changes nothing; but a record that passed validation
    passes it again once normalised only if one of its skills has a
    non-empty name or it has an experience entry: a record kept on the
    strength of skills with empty names enters the batch with no skill at
    all. *)
Theorem X15_validation_precedes_normalisation r :
  IsValid (enriched r) = IsValid r
  ∧ (validateResume r = true → IsValid r = true)
  ∧ (validateResume (enriched r) = true ↔
       validateResume r = true
       ∧ ((∃ skill, skill ∈ Skills r ∧ skill ≠ ""%string)
          ∨ entities.Experience r ≠ []))
  ∧ enriched (enriched r) = enriched r.
Proof.
  split; [reflexivity|].
  split.
  { unfold validateResume. by destruct (IsValid r). }
  split.
  - unfold validateResume, enriched. simpl.
    change (IsValid (set_Skills r (normalizeSkills (Skills r)))) with (IsValid r).
    destruct (IsValid r); simpl; [|split; [discriminate | intros [? _]; discriminate]].
    destruct (len (entities.Experience r) =? 0) eqn:Hexp.
    + rewrite !andb_true_r. apply len_zero in Hexp.
      destruct (len (normalizeSkills (Skills r)) =? 0) eqn:Hnorm.
      * apply len_zero in Hnorm.
        pose proof (proj1 (normalizeSkills_nil _) Hnorm) as Hempty.
        split; [discriminate|].
        intros [_ [(skill & Hin & Hne)|Hne]]; [|done].
        by apply Hempty in Hin.
      * apply len_zero_false in Hnorm.
        split; [|done]. intros _.
        destruct (normalizeSkills (Skills r)) as [|s rest] eqn:Hn; [done|].
        assert (s ∈ normalizeSkills (Skills r)) as Hin by (rewrite Hn; left).
        apply normalizeSkills_elem in Hin as [Hs Hne].
        split; [|left; eauto].
        destruct (len (Skills r) =? 0) eqn:Hsk; [|done].
        apply len_zero in Hsk. rewrite Hsk in Hs. by apply elem_of_nil in Hs.
    + rewrite !andb_false_r. apply len_zero_false in Hexp. tauto.
  - unfold enriched. simpl. unfold set_Skills. simpl.
    by rewrite normalizeSkills_idem.
Qed.

Lemma HasSkill_loop_elem skills skill :
  HasSkill_loop skills skill = true ↔ skill ∈ skills.
Proof.
  induction skills as [|s rest IH]; simpl.
  - rewrite elem_of_nil. split; [discriminate | tauto].
  - rewrite elem_of_cons. destruct (decide (s = skill)) as [->|Hne].
    + rewrite bool_decide_eq_true_2 by done. tauto.
    + rewrite bool_decide_eq_false_2 by done. rewrite IH.
      split; [tauto | intros [?|?]; [congruence | done]].
Qed.

(** X16.  [HasSkill] is membership in the skill list (names are compared
    byte for byte), and after normalisation a resume has exactly the skills
    it had, the empty name apart.  [GetLatestJob] is the first experience
    entry, is nil exactly when [GetExperienceYears] is zero, and
    [GetExperienceYears] is the number of experience entries; normalisation
    leaves both alone. *)
Theorem X16_skill_and_experience_queries r skill :
  (HasSkill r skill = true ↔ skill ∈ Skills r)
  ∧ HasSkill (enriched r) skill = HasSkill r skill && nonempty skill
  ∧ GetLatestJob r = head (entities.Experience r)
  ∧ (GetLatestJob r = None ↔ GetExperienceYears r = 0)
  ∧ GetExperienceYears r = len (entities.Experience r)
  ∧ GetLatestJob (enriched r) = GetLatestJob r
  ∧ GetExperienceYears (enriched r) = GetExperienceYears r.
Proof.
  split; [apply HasSkill_loop_elem|].
  split.
  { unfold HasSkill, enriched. simpl.
    apply eq_true_iff_eq.
    rewrite andb_true_iff, !HasSkill_loop_elem, normalizeSkills_elem, nonempty_true.
    tauto. }
  unfold GetLatestJob, GetExperienceYears, len.
  destruct (entities.Experience r) as [|job rest] eqn:Hexp; simpl.
  - repeat split; try done. all: unfold enriched; simpl; by rewrite Hexp.
  - repeat split; try done; try lia.
    all: unfold enriched; simpl; by rewrite Hexp.
Qed.

(** ** The application *)

Section application.
Context `{HR : ResumeRepository R} `{HT : StorageRepository T}.
Implicit Types (a : app.Application R T).

(** X17.  [Run] returns an error only when the flush of a non-empty batch
    failed: the error is the storage's, wrapped once by the use case and
    once by [Run], and the application is left with the storage as the
    failed [SaveResumes] left it.  Neither a failed listing of the saved
    identifiers nor a failed fetch makes [Run] fail. *)
Theorem X17_Run_fails_only_on_a_failed_save fuel a err a' :
  app.Run fuel a = Some (Some err, a') →
  ∃ repo st cause,
    paginate fuel (resumeRepo (loaded (app.useCase a)))
      (app.Run_criteria (app.config_ a)) 0
      (enterLoop (processed (loaded (app.useCase a))))
    = Some (repo, st)
    ∧ ls_allResumes st ≠ []
    ∧ SaveResumes (storageRepo (loaded (app.useCase a))) (ls_allResumes st)
      = (Some cause, storageRepo (app.useCase a'))
    ∧ err = Errorf "ошибка парсинга: %w"
              [ArgErr (Errorf "ошибка сохранения резюме: %w" [ArgErr cause])].
Proof.
  unfold app.Run. rewrite ParseResumesByCriteria_unfold.
  destruct (paginate fuel (resumeRepo (loaded (app.useCase a)))
              (app.Run_criteria (app.config_ a)) 0
              (enterLoop (processed (loaded (app.useCase a)))))
    as [[repo st]|]; [|discriminate].
  destruct (0 <? len (ls_allResumes st)) eqn:Hbatch; [|discriminate].
  destruct (SaveResumes (storageRepo (loaded (app.useCase a))) (ls_allResumes st))
    as [[cause|] storage] eqn:Hsave; [|discriminate].
  intros [= <- <-]. exists repo, st, cause.
  split; [done|]. split; [|by split].
  intros Hnil. rewrite Hnil in Hbatch. discriminate.
Qed.

(** X18.  When the very first request to the source fails, [Run] returns
    nil all the same: nothing is saved, the storage is as the listing of
    the saved identifiers left it, and the caller cannot tell the failure
    from a search that found nothing. *)
Theorem X18_Run_succeeds_when_the_source_is_down fuel a e repo' :
  SearchResumes (resumeRepo (loaded (app.useCase a)))
    (app.Run_criteria (app.config_ a))
  = (Err e, repo') →
  ∃ a',
    app.Run (S fuel) a = Some (None, a')
    ∧ resumeRepo (app.useCase a') = repo'
    ∧ storageRepo (app.useCase a') = storageRepo (loaded (app.useCase a))
    ∧ processed (app.useCase a') = processed (loaded (app.useCase a)).
Proof.
  intros Hcall.
  pose proof (paginate_run (app.Run_criteria (app.config_ a))
                (resumeRepo (loaded (app.useCase a))) 0 [] _ _
                (serves_nil _ _ _) (Err e) repo'
                (enterLoop (processed (loaded (app.useCase a)))) (S fuel)
                Hcall I ltac:(simpl; lia)) as Hrun.
  unfold app.Run. rewrite ParseResumesByCriteria_unfold, Hrun. simpl.
  eexists. split; [reflexivity|]. by simpl.
Qed.

End application.

(** X17 at work: the file cannot be created. *)
Lemma X17_witness :
  ∃ err a',
    app.Run (HT := examples.csv_in_memory) 2
      {| app.config_ := config.GetDefaultConfig;
         app.useCase :=
           NewResumeUseCase (paged examples.one_page_then_timeout) Denied |}
    = Some (Some err, a')
    ∧ ∃ repo st cause,
        paginate 2 (paged examples.one_page_then_timeout)
          (app.Run_criteria config.GetDefaultConfig) 0 (enterLoop ∅)
        = Some (repo, st)
        ∧ ls_allResumes st ≠ []
        ∧ SaveResumes (StorageRepository := examples.csv_in_memory)
            Denied (ls_allResumes st)
          = (Some cause, storageRepo (app.useCase a'))
        ∧ err = Errorf "ошибка парсинга: %w"
                  [ArgErr (Errorf "ошибка сохранения резюме: %w" [ArgErr cause])].
Proof.
  assert (∃ err a',
             app.Run (HT := examples.csv_in_memory) 2
               {| app.config_ := config.GetDefaultConfig;
                  app.useCase :=
                    NewResumeUseCase (paged examples.one_page_then_timeout) Denied |}
             = Some (Some err, a')) as (err & a' & Hrun).
  { eexists _, _. vm_compute. reflexivity. }
  exists err, a'. split; [exact Hrun|].
  exact (X17_Run_fails_only_on_a_failed_save _ _ _ _ Hrun).
Defined.

(** X18 at work: the source times out at once. *)
Lemma X18_witness :
  ∃ a',
    app.Run (HT := examples.json_in_memory) 1
      {| app.config_ := config.GetDefaultConfig;
         app.useCase :=
           NewResumeUseCase (paged (λ _, Err (ErrOther "timeout")))
             (Present [examples.alice]) |}
    = Some (None, a')
    ∧ resumeRepo (app.useCase a')
      = {| pages := λ _, Err (ErrOther "timeout"); requested := [0] |}
    ∧ storageRepo (app.useCase a') = Present [examples.alice]
    ∧ processed (app.useCase a') = {["a"%string := true]}.
Proof.
  apply (X18_Run_succeeds_when_the_source_is_down (HT := examples.json_in_memory) 0
           {| app.config_ := config.GetDefaultConfig;
              app.useCase :=
                NewResumeUseCase (paged (λ _, Err (ErrOther "timeout")))
                  (Present [examples.alice]) |}
           (ErrOther "timeout")).
  reflexivity.
Defined.

(** ** The hh.ru repository *)

Lemma foldl_snoc_filter_fmap {A B} (f : A → B) (P : B → bool) (l : list A) :
  ∀ acc,
    foldl (λ acc x, if P (f x) then acc ++ [f x] else acc) acc l
    = acc ++ filter (λ y, P y = true) (f <$> l).
Proof.
  induction l as [|x l IH]; intros acc; simpl; [by rewrite app_nil_r|].
  rewrite IH. destruct (P (f x)) eqn:HP.
  - rewrite filter_cons_True by done. by rewrite <- app_assoc.
  - rewrite filter_cons_False by congruence. done.
Qed.

(** A record without empty skill names passes validation before
    normalisation exactly when it passes it after. *)
Lemma validateResume_enriched_clean r :
  ""%string ∉ Skills r → validateResume (enriched r) = validateResume r.
Proof.
  intros Hclean. unfold validateResume, enriched. simpl.
  change (IsValid (set_Skills r (normalizeSkills (Skills r)))) with (IsValid r).
  destruct (IsValid r); simpl; [|done].
  assert ((len (normalizeSkills (Skills r)) =? 0) = (len (Skills r) =? 0)) as ->;
    [|done].
  rewrite normalizeSkills_spec. unfold spec_normalize.
  rewrite filter_ne_absent by done.
  by destruct (Skills r).
Qed.

Section converted.
Variable TrimSpace : string → string.
Variable time_Parse : string → string → result Time.

Lemma convertToResume_Skills item :
  Skills (hhrepo.convertToResume TrimSpace time_Parse item)
  = filter (λ name, nonempty name = true)
      (hhrepo.SkillName <$> hhrepo.Skills item).
Proof.
  unfold hhrepo.convertToResume. simpl.
  by rewrite (foldl_snoc_filter_fmap hhrepo.SkillName nonempty).
Qed.

(** X19.  What the hh.ru repository makes of the items of a response: one
    resume per item, in the order of the response, with the identifier of
    the item.  The skills of a converted resume are the skill names of the
    item without the empty ones, so normalisation only removes repetitions
    from them, and a converted resume that passes validation still passes
    it once normalised.  There are as many experience and education entries
    as the item has, and the location is always empty. *)
Theorem X19_converted_resumes items :
  hhrepo.convertItems TrimSpace time_Parse items
  = hhrepo.convertToResume TrimSpace time_Parse <$> items
  ∧ ∀ item,
      let r := hhrepo.convertToResume TrimSpace time_Parse item in
      ID r = hhrepo.ID item
      ∧ (∀ name, name ∈ Skills r ↔
                 name ≠ ""%string
                 ∧ ∃ skill, skill ∈ hhrepo.Skills item
                            ∧ hhrepo.SkillName skill = name)
      ∧ normalizeSkills (Skills r) = first_occurrences (Skills r)
      ∧ validateResume (enriched r) = validateResume r
      ∧ length (entities.Experience r) = length (hhrepo.Experience item)
      ∧ length (Education r) = length (hhrepo.Education item)
      ∧ Location r = ""%string.
Proof.
  split.
  { unfold hhrepo.convertItems. by rewrite foldl_snoc_fmap. }
  intros item r.
  assert (∀ name, name ∈ Skills r ↔
                  name ≠ ""%string
                  ∧ ∃ skill, skill ∈ hhrepo.Skills item
                             ∧ hhrepo.SkillName skill = name) as Hskills.
  { intros name. unfold r. rewrite convertToResume_Skills.
    rewrite list_elem_of_filter, nonempty_true, list_elem_of_fmap.
    split; intros [Hne (skill & H1 & H2)]; (split; [done|]); exists skill; by split. }
  assert (""%string ∉ Skills r) as Hclean.
  { rewrite Hskills. tauto. }
  assert (normalizeSkills (Skills r) = first_occurrences (Skills r)) as Hnorm.
  { rewrite normalizeSkills_spec. unfold spec_normalize.
    by rewrite filter_ne_absent. }
  split; [done|]. split; [exact Hskills|]. split; [exact Hnorm|].
  split; [by apply validateResume_enriched_clean|].
  unfold r, hhrepo.convertToResume. simpl.
  rewrite !foldl_snoc_fmap. simpl. by rewrite !length_fmap.
Qed.

End converted.

(** ** The rate limiter *)

(** X20.  [applyRateLimit] never sleeps before the first request.  After
    it, when the clock has not run backwards since the request before, it
    sleeps only if less than the rate limit has elapsed, and then for a
    positive time of at most the rate limit.  When moreover [time.Sleep]
    sleeps for at least the time it is given, the instant recorded for a
    request is at least one rate limit after the instant recorded for the
    request before it.  (The rate limit is a [time.Duration], an [int64].) *)
Theorem X20_requests_are_spaced r since now :
  (Time_IsZero (hhrepo.lastCall r) = true →
   fst (hhrepo.applyRateLimit r since now) = None)
  ∧ (in_range (hhrepo.rateLimit r) →
     Time_IsZero (hhrepo.lastCall r) = false →
     unix_nano (hhrepo.lastCall r) <= unix_nano since →
     match fst (hhrepo.applyRateLimit r since now) with
     | Some sleepTime =>
         0 < sleepTime <= hhrepo.rateLimit r
         ∧ unix_nano since - unix_nano (hhrepo.lastCall r) < hhrepo.rateLimit r
     | None => hhrepo.rateLimit r <= unix_nano since - unix_nano (hhrepo.lastCall r)
     end
     ∧ (unix_nano since + default 0 (fst (hhrepo.applyRateLimit r since now))
          <= unix_nano now →
        hhrepo.rateLimit r
          <= unix_nano (hhrepo.lastCall (snd (hhrepo.applyRateLimit r since now)))
             - unix_nano (hhrepo.lastCall r))).
Proof.
  unfold hhrepo.applyRateLimit. simpl. split.
  - by intros ->.
  - intros Hlimit -> Hmono. simpl. unfold Time_Sub.
    unfold in_range, int_min, int_max in *.
    set (d := unix_nano since - unix_nano (hhrepo.lastCall r)) in *.
    assert (0 <= d) as Hd by (unfold d; lia).
    destruct (d <? - 2 ^ 63) eqn:Hlow; [lia|].
    destruct (2 ^ 63 - 1 <? d) eqn:Hhigh.
    + apply Z.ltb_lt in Hhigh.
      destruct (2 ^ 63 - 1 <? hhrepo.rateLimit r) eqn:Hcmp; [lia|].
      simpl. unfold d in *. lia.
    + apply Z.ltb_ge in Hhigh.
      destruct (d <? hhrepo.rateLimit r) eqn:Hcmp.
      * apply Z.ltb_lt in Hcmp. simpl.
        rewrite int_wrap_small by (unfold in_range, int_min, int_max; lia).
        unfold d in *. lia.
      * apply Z.ltb_ge in Hcmp. simpl. unfold d in *. lia.
Qed.

(** X20 at work: the limit is one second, the last request was recorded
    at 5 s, the next one comes at 5.4 s and is recorded at 6 s. *)
Lemma X20_witness :
  let r := {| hhrepo.config_ := config.GetDefaultConfig;
              hhrepo.rateLimit := config.Second;
              hhrepo.lastCall := {| unix_nano := 5000000000; zone_offset := 0 |} |} in
  let since := {| unix_nano := 5400000000; zone_offset := 0 |} in
  let now := {| unix_nano := 6000000000; zone_offset := 0 |} in
  fst (hhrepo.applyRateLimit r since now) = Some 600000000
  ∧ match fst (hhrepo.applyRateLimit r since now) with
    | Some sleepTime =>
        0 < sleepTime <= hhrepo.rateLimit r
        ∧ unix_nano since - unix_nano (hhrepo.lastCall r) < hhrepo.rateLimit r
    | None => hhrepo.rateLimit r <= unix_nano since - unix_nano (hhrepo.lastCall r)
    end
  ∧ hhrepo.rateLimit r
      <= unix_nano (hhrepo.lastCall (snd (hhrepo.applyRateLimit r since now)))
         - unix_nano (hhrepo.lastCall r).
Proof.
  intros r since now. split; [reflexivity|].
  destruct (proj2 (X20_requests_are_spaced r since now)) as [Hsleep Hspaced].
  - vm_compute. split; discriminate.
  - reflexivity.
  - vm_compute. discriminate.
  - split; [exact Hsleep|]. apply Hspaced. vm_compute. discriminate.
Defined.

(** ** What the sink lists after a run *)

Section sink_after_run.
Context `{HR : ResumeRepository R} `{HT : StorageRepository T}.

(** X21.  With an adapter that lists what it saved, the sink after a run
    that saved something lists exactly the identifiers the run kept: the
    first valid occurrences that were new to it.  None of the identifiers
    the sink listed before the run is among them: a run that saves
    anything replaces the identifiers saved before it. *)
Theorem X21_a_saving_run_replaces_what_the_sink_listed
    fuel (uc : ResumeUseCase R T) criteria pgs repo_n page_n res repo' result uc' :
  (∀ storage batch storage',
      SaveResumes storage batch = (None, storage') →
      fst (GetSavedResumeIDs storage') = Ok (ID <$> batch)) →
  serves criteria (resumeRepo (loaded uc)) 0 pgs repo_n page_n →
  SearchResumes repo_n (set_Page criteria page_n) = (res, repo') →
  breaks res →
  (length pgs < fuel)%nat →
  ParseResumesByCriteria fuel uc criteria = Some (result, None, uc') →
  kept_ids (processed (loaded uc)) (concat pgs) ≠ [] →
  fst (GetSavedResumeIDs (storageRepo uc'))
  = Ok (kept_ids (processed (loaded uc)) (concat pgs))
  ∧ ∀ ids id,
      fst (GetSavedResumeIDs (storageRepo uc)) = Ok ids →
      id ∈ ids →
      id ∉ kept_ids (processed (loaded uc)) (concat pgs).
Proof.
  intros Hlists Hs Hlast Hbr Hfuel Hrun Hkept. split.
  - pose proof (paginate_run _ _ _ _ _ _ Hs res repo'
                  (enterLoop (processed (loaded uc))) fuel Hlast Hbr Hfuel) as Hloop.
    set (st := processPage (enterLoop (processed (loaded uc))) (concat pgs)) in *.
    pose proof (processPage_batch_ids (concat pgs)
                  (enterLoop (processed (loaded uc)))) as Hids.
    simpl in Hids. fold st in Hids.
    change (ID <$> ls_allResumes st = kept_ids (processed (loaded uc)) (concat pgs))
      in Hids.
    destruct (finish_fields st page_n res) as (_ & Hfa & _).
    rewrite ParseResumesByCriteria_unfold, Hloop, Hfa in Hrun.
    destruct (0 <? len (ls_allResumes st)) eqn:Hbatch.
    + destruct (SaveResumes (storageRepo (loaded uc)) (ls_allResumes st))
        as [[err|] storage] eqn:Hsave; [discriminate|].
      injection Hrun as _ <-. simpl.
      rewrite (Hlists _ _ _ Hsave). by rewrite Hids.
    + exfalso. apply Hkept. rewrite <- Hids.
      assert (ls_allResumes st = []) as ->; [|done].
      apply len_zero. unfold len in *. apply Z.ltb_ge in Hbatch.
      apply Z.eqb_eq. lia.
  - intros ids id Hlisted Hid Hin.
    unfold kept_ids in Hin.
    apply elem_of_first_occurrences, list_elem_of_filter in Hin as [Hnew _].
    assert (isAlreadyProcessed (processed (loaded uc)) id = true) as Hmarked.
    { apply loaded_processed. right. by exists ids. }
    congruence.
Qed.

End sink_after_run.

(** X21 at work: the file lists [alice]; the source serves [alice] and
    [bob]; afterwards the file lists [bob] alone. *)
Lemma X21_witness :
  ∃ result uc',
    ParseResumesByCriteria (HT := examples.json_in_memory) 2
      (NewResumeUseCase (paged (serve [[examples.alice; examples.bob]]))
         (Present [examples.alice]))
      examples.criteria
    = Some (result, None, uc')
    ∧ fst (GetSavedResumeIDs (StorageRepository := examples.json_in_memory)
             (storageRepo uc'))
      = Ok ["b"%string]
    ∧ "a"%string ∉ ["b"%string].
Proof.
  assert (∃ result uc',
             ParseResumesByCriteria (HT := examples.json_in_memory) 2
               (NewResumeUseCase (paged (serve [[examples.alice; examples.bob]]))
                  (Present [examples.alice]))
               examples.criteria
             = Some (result, None, uc')) as (result & uc' & Hrun).
  { eexists _, _. vm_compute. reflexivity. }
  exists result, uc'. split; [exact Hrun|].
  destruct (X21_a_saving_run_replaces_what_the_sink_listed
              (HT := examples.json_in_memory) 2
              (NewResumeUseCase (paged (serve [[examples.alice; examples.bob]]))
                 (Present [examples.alice]))
              examples.criteria [[examples.alice; examples.bob]]
              {| pages := serve [[examples.alice; examples.bob]]; requested := [0] |}
              1 (Ok [])
              {| pages := serve [[examples.alice; examples.bob]]; requested := [0; 1] |}
              result uc') as [Hlisted Hgone].
  - intros storage batch storage' Hsave. simpl in Hsave.
    unfold FileStorage_SaveResumes in Hsave.
    destruct (os_Create storage); [discriminate|].
    by injection Hsave as <-.
  - eapply serves_cons; [vm_compute; reflexivity | discriminate | apply serves_nil].
  - vm_compute. reflexivity.
  - reflexivity.
  - simpl. lia.
  - exact Hrun.
  - vm_compute. discriminate.
  - split; [exact Hlisted|].
    apply (Hgone ["a"%string]); [reflexivity | left].
Defined.

(** ** The search URL *)

Lemma lookup_Values_Add (params : gmap string (list string)) key value k :
  hhrepo.Values_Add params key value !! k
  = if decide (k = key) then Some (default [] (params !! key) ++ [value])
    else params !! k.
Proof.
  unfold hhrepo.Values_Add. destruct (decide (k = key)) as [->|Hne].
  - by rewrite lookup_insert_eq.
  - by rewrite lookup_insert_ne.
Qed.

Lemma cityMap_values city areaID :
  hhrepo.cityMap !! city = Some areaID → nonempty areaID = true.
Proof.
  intros Hin. apply elem_of_list_to_map_2 in Hin.
  match type of Hin with
  | _ ∈ ?table =>
      assert (Forall (λ entry : string * string, nonempty entry.2 = true) table)
        as Hall by (repeat constructor)
  end.
  rewrite Forall_forall in Hall. exact (Hall _ Hin).
Qed.

(** The values under every key after the six conditional additions of
    [buildSearchURL], whatever the conditions and the values are. *)
Lemma params_lookup (c2 c3 c4 c5 : bool) (v1 v2 v3 v4 v5 v6 : string) k :
  hhrepo.Values_Add
    (if c5 then
       hhrepo.Values_Add
         (if c4 then
            hhrepo.Values_Add
              (if c3 then
                 hhrepo.Values_Add
                   (if c2 then hhrepo.Values_Add (hhrepo.Values_Add ∅ "page" v1) "text" v2
                    else hhrepo.Values_Add ∅ "page" v1)
                   "area" v3
               else
                 if c2 then hhrepo.Values_Add (hhrepo.Values_Add ∅ "page" v1) "text" v2
                 else hhrepo.Values_Add ∅ "page" v1)
              "experience" v4
          else
            if c3 then
              hhrepo.Values_Add
                (if c2 then hhrepo.Values_Add (hhrepo.Values_Add ∅ "page" v1) "text" v2
                 else hhrepo.Values_Add ∅ "page" v1)
                "area" v3
            else
              if c2 then hhrepo.Values_Add (hhrepo.Values_Add ∅ "page" v1) "text" v2
              else hhrepo.Values_Add ∅ "page" v1)
         "period" v5
     else
       if c4 then
         hhrepo.Values_Add
           (if c3 then
              hhrepo.Values_Add
                (if c2 then hhrepo.Values_Add (hhrepo.Values_Add ∅ "page" v1) "text" v2
                 else hhrepo.Values_Add ∅ "page" v1)
                "area" v3
            else
              if c2 then hhrepo.Values_Add (hhrepo.Values_Add ∅ "page" v1) "text" v2
              else hhrepo.Values_Add ∅ "page" v1)
           "experience" v4
       else
         if c3 then
           hhrepo.Values_Add
             (if c2 then hhrepo.Values_Add (hhrepo.Values_Add ∅ "page" v1) "text" v2
              else hhrepo.Values_Add ∅ "page" v1)
             "area" v3
         else
           if c2 then hhrepo.Values_Add (hhrepo.Values_Add ∅ "page" v1) "text" v2
           else hhrepo.Values_Add ∅ "page" v1)
    "per_page" v6 !! k
  = if decide (k = "page"%string) then Some [v1]
    else if decide (k = "per_page"%string) then Some [v6]
    else if decide (k = "text"%string) then (if c2 then Some [v2] else None)
    else if decide (k = "area"%string) then (if c3 then Some [v3] else None)
    else if decide (k = "experience"%string) then (if c4 then Some [v4] else None)
    else if decide (k = "period"%string) then (if c5 then Some [v5] else None)
    else None.
Proof.
  destruct (decide (k = "page"%string)) as [->|Hpage];
    [destruct c2, c3, c4, c5; vm_compute; reflexivity|].
  destruct (decide (k = "per_page"%string)) as [->|Hper_page];
    [destruct c2, c3, c4, c5; vm_compute; reflexivity|].
  destruct (decide (k = "text"%string)) as [->|Htext];
    [destruct c2, c3, c4, c5; vm_compute; reflexivity|].
  destruct (decide (k = "area"%string)) as [->|Harea];
    [destruct c2, c3, c4, c5; vm_compute; reflexivity|].
  destruct (decide (k = "experience"%string)) as [->|Hexperience];
    [destruct c2, c3, c4, c5; vm_compute; reflexivity|].
  destruct (decide (k = "period"%string)) as [->|Hperiod];
    [destruct c2, c3, c4, c5; vm_compute; reflexivity|].
  destruct c2, c3, c4, c5; unfold hhrepo.Values_Add;
    rewrite ?lookup_insert_ne by done; apply lookup_empty.
Qed.

Section search_url_facts.
Variable TrimSpace : string → string.
Variable ToLower : string → string.

(** The values of every key of the query. *)
Lemma searchParams_lookup criteria k :
  hhrepo.searchParams TrimSpace ToLower criteria !! k
  = if decide (k = "page"%string) then Some [Sprintf_d (Page criteria)]
    else if decide (k = "per_page"%string) then
      Some [if 0 <? PerPage criteria then Sprintf_d (PerPage criteria)
            else "20"%string]
    else if decide (k = "text"%string) then
      if 0 <? len (Keywords criteria)
      then Some [String.concat " " (Keywords criteria)] else None
    else if decide (k = "area"%string) then
      if nonempty (City criteria)
      then (λ areaID, [areaID])
             <$> hhrepo.cityMap !! ToLower (TrimSpace (City criteria))
      else None
    else if decide (k = "experience"%string) then
      if nonempty (repositories.Experience criteria)
      then Some [repositories.Experience criteria] else None
    else if decide (k = "period"%string) then
      if 0 <? UpdateDays criteria
      then Some [Sprintf_d (UpdateDays criteria)] else None
    else None.
Proof.
  unfold hhrepo.searchParams, hhrepo.getCityAreaID. cbv zeta.
  set (v6 := if 0 <? PerPage criteria then Sprintf_d (PerPage criteria)
             else "20"%string).
  set (c3 := nonempty (City criteria)
             && bool_decide (is_Some (hhrepo.cityMap
                                        !! ToLower (TrimSpace (City criteria))))).
  set (v3 := default ""%string
               (hhrepo.cityMap !! ToLower (TrimSpace (City criteria)))).
  pose proof (params_lookup (0 <? len (Keywords criteria)) c3
                (nonempty (repositories.Experience criteria))
                (0 <? UpdateDays criteria)
                (Sprintf_d (Page criteria))
                (String.concat " " (Keywords criteria)) v3
                (repositories.Experience criteria)
                (Sprintf_d (UpdateDays criteria)) v6 k) as Hlookup.
  assert ((if c3 then Some [v3] else None)
          = if nonempty (City criteria)
            then (λ areaID, [areaID])
                   <$> hhrepo.cityMap !! ToLower (TrimSpace (City criteria))
            else None) as Harea.
  { unfold c3, v3. destruct (nonempty (City criteria)); [|done].
    by destruct (hhrepo.cityMap !! ToLower (TrimSpace (City criteria))). }
  rewrite Harea in Hlookup. rewrite <- Hlookup. clear Hlookup Harea.
  f_equal.
  assert (∀ p : gmap string (list string),
             (if nonempty (City criteria) then
                if nonempty
                     match hhrepo.cityMap !! ToLower (TrimSpace (City criteria)) with
                     | Some areaID => areaID
                     | None => ""%string
                     end
                then hhrepo.Values_Add p "area"
                       match hhrepo.cityMap !! ToLower (TrimSpace (City criteria)) with
                       | Some areaID => areaID
                       | None => ""%string
                       end
                else p
              else p)
             = if c3 then hhrepo.Values_Add p "area" v3 else p) as Hcity.
  { intros p. unfold c3, v3. destruct (nonempty (City criteria)); [|done].
    destruct (hhrepo.cityMap !! ToLower (TrimSpace (City criteria)))
      as [areaID|] eqn:Hin; [|done].
    by rewrite (cityMap_values _ _ Hin). }
  rewrite Hcity. unfold v6.
  by destruct (0 <? PerPage criteria), (0 <? len (Keywords criteria)), c3,
       (nonempty (repositories.Experience criteria)), (0 <? UpdateDays criteria).
Qed.

(** X22.  The query of every search URL has exactly one [page] value, the
    page number, and exactly one [per_page] value, the page size when it is
    positive and 20 otherwise.  The [area] filter is there exactly when the
    city, trimmed and in lower case, is one of the table; an unknown city
    is not an error: the search is then not restricted to a region.  No
    other key than the six of the code occurs, and from one request of a
    run to the next only the [page] value changes. *)
Theorem X22_query_of_a_search_URL criteria :
  let params := hhrepo.searchParams TrimSpace ToLower criteria in
  params !! "page"%string = Some [Sprintf_d (Page criteria)]
  ∧ params !! "per_page"%string
    = Some [if 0 <? PerPage criteria then Sprintf_d (PerPage criteria)
            else "20"%string]
  ∧ (is_Some (params !! "area"%string) ↔
       City criteria ≠ ""%string
       ∧ is_Some (hhrepo.cityMap !! ToLower (TrimSpace (City criteria))))
  ∧ (∀ key, is_Some (params !! key) →
            key ∈ ["page"; "text"; "area"; "experience"; "period"; "per_page"]%string)
  ∧ ∀ page,
      hhrepo.searchParams TrimSpace ToLower (set_Page criteria page)
      = <["page"%string := [Sprintf_d page]]> params.
Proof.
  intros params. unfold params.
  split.
  { rewrite searchParams_lookup. by rewrite decide_True by reflexivity. }
  split.
  { rewrite searchParams_lookup. rewrite decide_False by discriminate.
    by rewrite decide_True by reflexivity. }
  split.
  { rewrite searchParams_lookup.
    repeat (rewrite decide_False by discriminate).
    rewrite decide_True by reflexivity.
    destruct (nonempty (City criteria)) eqn:Hcity.
    - apply nonempty_true in Hcity. rewrite fmap_is_Some. tauto.
    - apply nonempty_false in Hcity. split; [by intros [? ?] | tauto]. }
  split.
  { intros key. rewrite searchParams_lookup.
    repeat match goal with
           | |- context [decide (key = ?s)] =>
               destruct (decide (key = s)) as [->|?];
               [intros _; repeat first [by left | right]|]
           end.
    by intros [? ?]. }
  intros page. apply map_eq. intros k.
  destruct (decide (k = "page"%string)) as [->|Hk].
  - rewrite lookup_insert_eq. by rewrite searchParams_lookup.
  - rewrite lookup_insert_ne by done.
    rewrite !searchParams_lookup.
    destruct (decide (k = "page"%string)); [done|]. reflexivity.
Qed.

End search_url_facts.

(** ** GetResumeDetails *)

(** X23.  The cache is never used: with or without a cache repository,
    [GetResumeDetails] asks the source once and returns what the source
    returned, the resume as it is (neither validated nor normalised) or the
    error wrapped with the identifier.  It leaves the storage and the
    processed set alone, so a resume looked up this way can still be saved
    by a later run. *)
Theorem X23_details_always_come_from_the_source
    `{HR : ResumeRepository R} {T} has_cache (uc : ResumeUseCase R T) resumeID :
  GetResumeDetails has_cache uc resumeID = GetResumeDetails false uc resumeID
  ∧ fst (GetResumeDetails has_cache uc resumeID)
    = match fst (GetResumeByID (resumeRepo uc) resumeID) with
      | Ok resume => Ok resume
      | Err err =>
          Err (Errorf "ошибка получения резюме %s: %w"
                 [ArgStr resumeID; ArgErr err])
      end
  ∧ resumeRepo (snd (GetResumeDetails has_cache uc resumeID))
    = snd (GetResumeByID (resumeRepo uc) resumeID)
  ∧ storageRepo (snd (GetResumeDetails has_cache uc resumeID)) = storageRepo uc
  ∧ processed (snd (GetResumeDetails has_cache uc resumeID)) = processed uc.
Proof.
  unfold GetResumeDetails, getCachedResume, cacheResume.
  destruct has_cache;
    by destruct (GetResumeByID (resumeRepo uc) resumeID) as [[resume|err] repo].
Qed.
